(** * zetas8.6 shell: command splitting, alias expansion, argv classification
    and priority execution

  A shallow embedding of the parsing and ordering core of [zetas8.6.py]:
  - [MultiCommandProcessor.parse_commands]  (the [+] splitter),
  - [AliasManager._load_aliases] / [add_alias] / [remove_alias] /
    [expand_alias],
  - [ParameterSystem.parse_args] / [_is_executable] / [execute_in_order].

  Python strings are sequences of Unicode code points; they are modelled
  as [list N], one number per code point.  [str "..."] embeds an ASCII
  literal. *)

From Stdlib Require Import String Ascii NArith List Bool Lia.
From stdpp Require Import base option list gmap.
Import ListNotations.

Local Open Scope N_scope.
Local Open Scope list_scope.

(** ** Python strings *)

Module Py.

Abbreviation char := N (only parsing).
Abbreviation pystr := (list N) (only parsing).

(** An ASCII literal as a Python string. *)
Definition str (s : string) : pystr :=
  List.map N_of_ascii (list_ascii_of_string s).

Definition backslash : char := 92.
Definition dquote : char := 34.
Definition squote : char := 39.
Definition plus : char := 43.
Definition slash : char := 47.
Definition dash : char := 45.
Definition dot : char := 46.
Definition space : char := 32.

(** [str.isspace] on one code point (the set [str.strip()] and
    [str.split()] remove): the ASCII controls 9-13 and 28-31, the space,
    and the Unicode separators. *)
Definition isspace (c : char) : bool :=
  ((9 <=? c) && (c <=? 13)) || ((28 <=? c) && (c <=? 32))
  || (c =? 0x85) || (c =? 0xA0) || (c =? 0x1680)
  || ((0x2000 <=? c) && (c <=? 0x200A))
  || (c =? 0x2028) || (c =? 0x2029) || (c =? 0x202F)
  || (c =? 0x205F) || (c =? 0x3000).

Fixpoint lstrip (s : pystr) : pystr :=
  match s with
  | [] => []
  | c :: s' => if isspace c then lstrip s' else s
  end.

Definition rstrip (s : pystr) : pystr := rev (lstrip (rev s)).

(** [s.strip()] *)
Definition strip (s : pystr) : pystr := rstrip (lstrip s).

(** [s.startswith(p)] *)
Fixpoint startswith (s p : pystr) {struct p} : bool :=
  match p, s with
  | [], _ => true
  | d :: p', c :: s' => (c =? d) && startswith s' p'
  | _ :: _, [] => false
  end.

(** [s.endswith(p)] *)
Definition endswith (s p : pystr) : bool := startswith (rev s) (rev p).

(** The leading run of non-whitespace characters, and what follows it. *)
Fixpoint word (s : pystr) : pystr * pystr :=
  match s with
  | [] => ([], [])
  | c :: s' =>
      if isspace c then ([], s)
      else let '(w, r) := word s' in (c :: w, r)
  end.

(** [s.split(maxsplit=1)]: at most one split on a run of whitespace;
    leading whitespace is skipped, and so is the whitespace between the
    first word and the remainder; the remainder is kept to the end of the
    string. *)
Definition split_max1 (s : pystr) : list pystr :=
  match lstrip s with
  | [] => []
  | s1 =>
      let '(w, r) := word s1 in
      match lstrip r with
      | [] => [w]
      | r' => [w; r']
      end
  end.

End Py.

Import Py.

(** ** The multi-command splitter: [MultiCommandProcessor.parse_commands] *)

Module Splitter.

(** The local variables of [parse_commands]. *)
Record state := State {
  commands : list pystr;
  current_command : pystr;
  in_quotes : bool;
  quote_char : option char;
  skip_next : bool
}.

Definition initial : state := State [] [] false None false.

Definition is_quote (c : char) : bool := (c =? dquote) || (c =? squote).

Definition quote_matches (q : option char) (c : char) : bool :=
  match q with
  | Some d => d =? c
  | None => false
  end.

(** One iteration of the [for i, char in enumerate(command_string)] loop.
    [rest] is [command_string[i+1:]], so [i + 1 < len(command_string)] is
    "[rest] is not empty" and [command_string[i + 1]] is its head. *)
Definition step (st : state) (c : char) (rest : pystr) : state :=
  if skip_next st then
    State (commands st) (current_command st ++ [c])
          (in_quotes st) (quote_char st) false
  else
    match (c =? backslash), rest with
    | true, next :: _ =>
        State (commands st) (current_command st ++ [next])
              (in_quotes st) (quote_char st) true
    | _, _ =>
        if is_quote c then
          if negb (in_quotes st) then
            State (commands st) (current_command st ++ [c])
                  true (Some c) false
          else if quote_matches (quote_char st) c then
            State (commands st) (current_command st ++ [c])
                  false None false
          else
            State (commands st) (current_command st ++ [c])
                  (in_quotes st) (quote_char st) false
        else if (c =? plus) && negb (in_quotes st) then
          match current_command st with
          | [] => st
          | _ :: _ =>
              State (commands st ++ [strip (current_command st)]) []
                    (in_quotes st) (quote_char st) false
          end
        else
          State (commands st) (current_command st ++ [c])
                (in_quotes st) (quote_char st) false
    end.

(** The whole loop over the remaining input. *)
Fixpoint scan (st : state) (s : pystr) : state :=
  match s with
  | [] => st
  | c :: rest => scan (step st c rest) rest
  end.

(** After the loop: the last command is added when it has characters. *)
Definition finish (st : state) : list pystr :=
  match current_command st with
  | [] => commands st
  | _ :: _ => commands st ++ [strip (current_command st)]
  end.

Definition parse_commands (command_string : pystr) : list pystr :=
  finish (scan initial command_string).

(** ** Character classes used to state properties of the scan *)

(** Characters the scanner gives no meaning to. *)
Definition is_plain (c : char) : bool :=
  negb ((c =? plus) || is_quote c || (c =? backslash)).

Definition not_backslash (c : char) : bool := negb (c =? backslash).

(** The characters that may stand between an opening quote [q] and the
    quote that closes it: any but [q] itself and the backslash. *)
Definition inside (q : char) (c : char) : bool :=
  negb (c =? q) && not_backslash c.

(** What every emitted sub-command is: the trimmed text of a segment that
    had at least one character. *)
Definition trimmed_nonempty (cmd : pystr) : Prop :=
  exists raw, raw <> [] /\ cmd = strip raw.

(** ** The raw segments of a line *)






(** ** Quoted regions *)

(** The texts that can stand between a quote [q] and the quote that closes
    it: no [q] that is not escaped, and no backslash left without a
    character to escape (it would escape the closing quote). *)
Fixpoint body (q : char) (mid : pystr) : bool :=
  match mid with
  | [] => true
  | c :: m =>
      if c =? backslash then
        match m with
        | _ :: m' => body q m'
        | [] => false
        end
      else negb (c =? q) && body q m
  end.

(** What the loop appends for such a text: an escaped character twice,
    without its backslash, and every other character as it is. *)
Fixpoint kept (mid : pystr) : pystr :=
  match mid with
  | [] => []
  | c :: m =>
      if c =? backslash then
        match m with
        | d :: m' => d :: d :: kept m'
        | [] => [c]
        end
      else c :: kept m
  end.

End Splitter.

(** ** Aliases: [AliasManager] *)

Module Alias.

Section Manager.

(** The alias file on disk is kept abstract: [write_file] is what an
    attempted [json.dump] of the table does to it ([_save_aliases] catches
    every failure of the write). *)
Context {File : Type}.
Variable write_file : gmap (list N) (list N) -> File -> File.

(** [self.aliases] and the contents of [self.aliases_file]. *)
Record manager := Manager {
  aliases : gmap (list N) (list N);
  aliases_file : File
}.

Definition _save_aliases (self : manager) : manager :=
  Manager (aliases self) (write_file (aliases self) (aliases_file self)).

(** [add_alias]: the returned boolean and the manager afterwards. *)
Definition add_alias (name command : pystr) (self : manager)
  : bool * manager :=
  if decide (name ∈ [str "alias"; str "unalias"]) then (false, self)
  else
    (true,
     _save_aliases (Manager (<[name := command]> (aliases self))
                            (aliases_file self))).

Definition remove_alias (name : pystr) (self : manager) : bool * manager :=
  match aliases self !! name with
  | Some _ =>
      (true,
       _save_aliases (Manager (delete name (aliases self))
                              (aliases_file self)))
  | None => (false, self)
  end.

(** [unalias -a], confirmed: [aliases.clear()] then [_save_aliases()]. *)
Definition clear_aliases (self : manager) : manager :=
  _save_aliases (Manager ∅ (aliases_file self)).

Definition expand_alias (self : manager) (command : pystr) : pystr :=
  match split_max1 (strip command) with
  | [] => command
  | cmd_name :: more =>
      match aliases self !! cmd_name with
      | Some alias_command =>
          match more with
          | remainder :: _ => alias_command ++ [space] ++ remainder
          | [] => alias_command
          end
      | None => command
      end
  end.

(** The mutations the shell performs on a manager. *)
Inductive operation :=
| Add (name command : pystr)
| Remove (name : pystr)
| Clear.

Definition apply (self : manager) (o : operation) : manager :=
  match o with
  | Add name command => snd (add_alias name command self)
  | Remove name => snd (remove_alias name self)
  | Clear => clear_aliases self
  end.

Definition run (ops : list operation) (self : manager) : manager :=
  fold_left apply ops self.

(** What [_load_aliases] finds at [self.aliases_file]: no file, a file
    that cannot be opened or is not JSON, or a JSON object of strings.
    (A JSON value of another shape would be stored as it is; it is not a
    table and is not modelled.) *)
Inductive contents :=
| Absent
| Unreadable
| Object (table : gmap (list N) (list N)).

Variable read_file : File -> contents.

(** [_load_aliases]: the object in the file becomes the table, as it is;
    a failure gives the empty table. *)
Definition _load_aliases (self : manager) : manager :=
  match read_file (aliases_file self) with
  | Absent => self
  | Unreadable => Manager ∅ (aliases_file self)
  | Object table => Manager table (aliases_file self)
  end.

(** [__init__]: the empty table, then [_load_aliases]. *)
Definition init (file : File) : manager := _load_aliases (Manager ∅ file).

End Manager.

End Alias.

(** ** Argument classification: [ParameterSystem.parse_args] *)

Module Classifier.

(** What [os.stat] finds at a path: nothing, a directory, a regular file,
    or something else (a device, a socket, a FIFO). *)
Inductive node := Missing | Directory | Regular | Special.

(** [os.name] *)
Inductive os_name := posix | nt.

(** The platform the classifier queries. *)
Record platform := Platform {
  name : os_name;
  stat : pystr -> node;
  (** [os.access(path, os.X_OK)] *)
  access_x : pystr -> bool;
  (** [str.lower] on strings with a character outside ASCII *)
  unicode_lower : pystr -> pystr
}.

Section Filesystem.

Variable os : platform.

Definition exists_ (p : pystr) : bool :=
  match stat os p with Missing => false | _ => true end.

Definition isdir (p : pystr) : bool :=
  match stat os p with Directory => true | _ => false end.

Definition isfile (p : pystr) : bool :=
  match stat os p with Regular => true | _ => false end.

(** Path separators of [os.path]: [/] on posix, [\] and [/] on nt. *)
Definition is_sep (c : char) : bool :=
  match name os with
  | posix => c =? slash
  | nt => (c =? backslash) || (c =? slash)
  end.

(** The part of a path after its last separator. *)
Definition last_component (p : pystr) : pystr :=
  fold_left (fun acc c => if is_sep c then [] else acc ++ [c]) p [].

(** Splits at the last dot: what is before it, and the rest from the dot on. *)
Fixpoint at_last_dot (s : pystr) : option (pystr * pystr) :=
  match s with
  | [] => None
  | c :: s' =>
      match at_last_dot s' with
      | Some (b, e) => Some (c :: b, e)
      | None => if c =? dot then Some ([], s) else None
      end
  end.

(** [os.path.splitext(p)[1]]: the extension starts at the last dot of the
    last component, unless only dots come before it in that component. *)
Definition splitext_ext (p : pystr) : pystr :=
  match at_last_dot (last_component p) with
  | Some (stem, ext) =>
      if existsb (fun c => negb (c =? dot)) stem then ext else []
  | None => []
  end.

Definition ascii_lower (c : char) : char :=
  if (65 <=? c) && (c <=? 90) then c + 32 else c.

(** [s.lower()] *)
Definition lower (s : pystr) : pystr :=
  if forallb (fun c => c <? 128) s then List.map ascii_lower s
  else unicode_lower os s.

Definition executable_exts : list pystr :=
  [str ".exe"; str ".bat"; str ".cmd"; str ".sh"; str ".py"; str ".app"].

Definition _is_executable (file_path : pystr) : bool :=
  if negb (exists_ file_path) then false
  else
    let ext := lower (splitext_ext file_path) in
    if decide (ext ∈ executable_exts) then true
    else
      match name os with
      | posix => access_x os file_path
      | nt => false
      end.

(** The value of a plain option: the following token, or [True]. *)
Inductive option_value := OptTrue | OptStr (s : pystr).

(** The [result] dictionary of [parse_args].  [options] is a dict: an
    association list in insertion order, one entry per key. *)
Record classified := Classified {
  commands : list (pystr * option pystr);
  files : list pystr;
  directories : list pystr;
  executables : list pystr;
  options : list (pystr * option_value);
  scripts : list pystr
}.

Definition empty_result : classified := Classified [] [] [] [] [] [].

(** [d[k] = v] on an insertion-ordered dict: an existing key keeps its
    place and takes the new value, a new key goes last. *)
Fixpoint dict_set {V : Type} (k : pystr) (v : V) (d : list (pystr * V))
  : list (pystr * V) :=
  match d with
  | [] => [(k, v)]
  | (k', v') :: d' =>
      if decide (k' = k) then (k', v) :: d' else (k', v') :: dict_set k v d'
  end.

Definition add_command (c : pystr * option pystr) (r : classified) :=
  Classified (commands r ++ [c]) (files r) (directories r) (executables r)
             (options r) (scripts r).

Definition add_file (p : pystr) (r : classified) :=
  Classified (commands r) (files r ++ [p]) (directories r) (executables r)
             (options r) (scripts r).

Definition add_directory (p : pystr) (r : classified) :=
  Classified (commands r) (files r) (directories r ++ [p]) (executables r)
             (options r) (scripts r).

Definition add_executable (p : pystr) (r : classified) :=
  Classified (commands r) (files r) (directories r) (executables r ++ [p])
             (options r) (scripts r).

Definition set_option (k : pystr) (v : option_value) (r : classified) :=
  Classified (commands r) (files r) (directories r) (executables r)
             (dict_set k v (options r)) (scripts r).

Definition add_script (p : pystr) (r : classified) :=
  Classified (commands r) (files r) (directories r) (executables r)
             (options r) (scripts r ++ [p]).

(** [args[i + 1].startswith(('-', '/'))] *)
Definition is_flag (tok : pystr) : bool :=
  startswith tok [dash] || startswith tok [slash].

(** The branches of the loop body that do not look ahead. *)
Definition classify_path (arg : pystr) (result : classified) : classified :=
  if endswith arg (str ".zetas") then add_script arg result
  else if isdir arg then add_directory arg result
  else if isfile arg then
    if _is_executable arg then add_executable arg result
    else add_file arg result
  else
    if _is_executable arg then add_executable arg result
    else add_file arg result.

(** The [while i < len(args)] loop; the argument list is [args[i:]]. *)
Fixpoint parse_loop (args : list pystr) (result : classified) : classified :=
  match args with
  | [] => result
  | arg :: rest =>
      if startswith arg [slash] then
        let cmd := drop 1 arg in
        match rest with
        | next :: rest' =>
            if negb (is_flag next)
            then parse_loop rest' (add_command (cmd, Some next) result)
            else parse_loop rest (add_command (cmd, None) result)
        | [] => parse_loop rest (add_command (cmd, None) result)
        end
      else if startswith arg [dash] then
        match rest with
        | next :: rest' =>
            if negb (is_flag next)
            then parse_loop rest' (set_option arg (OptStr next) result)
            else parse_loop rest (set_option arg OptTrue result)
        | [] => parse_loop rest (set_option arg OptTrue result)
        end
      else parse_loop rest (classify_path arg result)
  end.

Definition parse_args (args : list pystr) : classified :=
  parse_loop args empty_result.

End Filesystem.

(** The four buckets of paths. *)
Definition path_buckets : list (classified -> list pystr) :=
  [scripts; files; directories; executables].

End Classifier.

(** ** Priority execution: [ParameterSystem.execute_in_order] *)

Module Executor.

Import Classifier.

(** What a handler hands back as [success]: the handlers are annotated
    [-> bool], and [ColorManager.set_color] can fall off its end. *)
Inductive value := PyTrue | PyFalse | PyNone.

Definition truthy (v : value) : bool :=
  match v with PyTrue => true | _ => false end.

(** How a handler call ends: it returns, it raises an [Exception] whose
    [str()] is [reason], or it raises something [except Exception] does not
    catch ([SystemExit], [KeyboardInterrupt]). *)
Inductive outcome :=
| Returns (success : value)
| Raises (reason : pystr)
| Escapes.

(** The keys of [execution_sequence]. *)
Inductive category := Commands | Scripts | Files | Directories | Executables.

Definition key (c : category) : pystr :=
  match c with
  | Commands => str "commands"
  | Scripts => str "scripts"
  | Files => str "files"
  | Directories => str "directories"
  | Executables => str "executables"
  end.

(** The items of a bucket: [(cmd, arg)] tuples for commands, strings for
    the others. *)
Definition item (c : category) : Type :=
  match c with
  | Commands => (pystr * option pystr)%type
  | _ => pystr
  end.

(** [parsed_args.get(category, [])] *)
Definition get (parsed_args : classified) (c : category) : list (item c) :=
  match c with
  | Commands => commands parsed_args
  | Scripts => scripts parsed_args
  | Files => files parsed_args
  | Directories => directories parsed_args
  | Executables => executables parsed_args
  end.

Definition execution_sequence : list category :=
  [Commands; Scripts; Files; Directories; Executables].

(** A value stored by [config.set]. *)
Inductive config_value := CfgStr (s : pystr) | CfgBool (b : bool).

(** One entry of [results]: the label and the success value. *)
Definition result : Type := pystr * value.

(** [s[:-1]] *)
Definition drop_last (s : pystr) : pystr := removelast s.

(** The literal texts of the labels, by code point. *)
Definition txt_command : pystr := [0x547D; 0x4EE4] ++ str ": /".
Definition txt_error : pystr := str " - " ++ [0x9519; 0x8BEF] ++ str ": ".
Definition txt_console : pystr :=
  [0x9009; 0x9879] ++ str ": "
  ++ [0x5207; 0x6362; 0x5230; 0x63A7; 0x5236; 0x53F0; 0x754C; 0x9762].
Definition txt_bash : pystr :=
  [0x9009; 0x9879] ++ str ": " ++ [0x542F; 0x7528] ++ str "Bash"
  ++ [0x8BED; 0x6CD5].

(** The names [_execute_command] has a handler for. *)
Definition command_names : list pystr :=
  [str "p"; str "monitor"; str "bash"; str "help"; str "config";
   str "sysinfo"; str "fileops"; str "process"; str "network";
   str "encode"; str "time"; str "color"].

(** One thing the executor does: hand an item to the handler of its
    category, or apply a recognised option. *)
Inductive dispatch :=
| Handle (c : category) (it : item c)
| SwitchConsole
| EnableBash.

(** The items of the five buckets, bucket after bucket. *)
Definition calls (parsed_args : classified) : list dispatch :=
  List.map (Handle Commands) (commands parsed_args)
  ++ List.map (Handle Scripts) (scripts parsed_args)
  ++ List.map (Handle Files) (files parsed_args)
  ++ List.map (Handle Directories) (directories parsed_args)
  ++ List.map (Handle Executables) (executables parsed_args).

Definition option_effect (option : pystr) : list dispatch :=
  if decide (option = str "-console") then [SwitchConsole]
  else if decide (option = str "-bash") then [EnableBash]
  else [].

Definition option_effects (opts : list (pystr * option_value))
  : list dispatch :=
  flat_map (fun kv => option_effect (fst kv)) opts.

(** Everything a run does, in order. *)
Definition plan (parsed_args : classified) : list dispatch :=
  calls parsed_args ++ option_effects (options parsed_args).

Section Handlers.

(** Everything the handlers act on (the console, the file system, child
    processes, [config], [script_state]) is one abstract world. *)
Context {World : Type}.

(** The built-in behind a name of [command_names]. *)
Variable builtin : pystr -> option pystr -> World -> outcome * World.
(** The warning [_execute_command] prints for any other name. *)
Variable print_unknown : pystr -> World -> World.
Variable _execute_script :
  pystr -> list (pystr * option_value) -> World -> outcome * World.
Variable _process_file :
  pystr -> list (pystr * option_value) -> World -> outcome * World.
Variable _process_directory :
  pystr -> list (pystr * option_value) -> World -> outcome * World.
Variable _execute_program :
  pystr -> list (pystr * option_value) -> World -> outcome * World.
(** [config.set(key, value)]; it catches the failures of its own save. *)
Variable config_set : pystr -> config_value -> World -> World.
(** [repr] of a string. *)
Variable repr : pystr -> pystr.

Definition _execute_command (command : pystr) (arg : option pystr)
  (w : World) : outcome * World :=
  if decide (command ∈ command_names) then builtin command arg w
  else (Returns PyFalse, print_unknown command w).

(** [handler(...)] as the loop body calls it for a category. *)
Definition call (c : category)
  : item c -> list (pystr * option_value) -> World -> outcome * World :=
  match c with
  | Commands => fun it _ => _execute_command (fst it) (snd it)
  | Scripts => _execute_script
  | Files => _process_file
  | Directories => _process_directory
  | Executables => _execute_program
  end.

(** [arg if arg else ''] *)
Definition arg_text (arg : option pystr) : pystr :=
  match arg with
  | Some (c :: a) => c :: a
  | _ => []
  end.

(** The f-string [{item}]: the string itself, or the tuple as printed. *)
Definition show (c : category) : item c -> pystr :=
  match c with
  | Commands => fun it =>
      str "(" ++ repr (fst it) ++ str ", "
      ++ match snd it with Some a => repr a | None => str "None" end
      ++ str ")"
  | _ => fun it => it
  end.

(** The label of an item whose handler returned. *)
Definition label (c : category) : item c -> pystr :=
  match c with
  | Commands => fun it =>
      txt_command ++ fst it ++ [space] ++ arg_text (snd it)
  | c' => fun it => drop_last (key c') ++ str ": " ++ show c' it
  end.

(** The label of an item whose handler raised. *)
Definition error_label (c : category) (it : item c) (reason : pystr)
  : pystr :=
  drop_last (key c) ++ str ": " ++ show c it ++ txt_error ++ reason.

(** The [try] statement of the inner loop, for one item.  [None] means an
    exception has left [execute_in_order]. *)
Definition try_item (c : category) (it : item c) (parsed_args : classified)
  (results : list result) (w : World) : option (list result) * World :=
  match call c it (options parsed_args) w with
  | (Returns success, w') => (Some (results ++ [(label c it, success)]), w')
  | (Raises e, w') => (Some (results ++ [(error_label c it e, PyFalse)]), w')
  | (Escapes, w') => (None, w')
  end.

(** [for item in items] *)
Fixpoint run_items (c : category) (items : list (item c))
  (parsed_args : classified) (results : list result) (w : World)
  : option (list result) * World :=
  match items with
  | [] => (Some results, w)
  | it :: items' =>
      match try_item c it parsed_args results w with
      | (Some results', w') => run_items c items' parsed_args results' w'
      | (None, w') => (None, w')
      end
  end.

(** [for category, handler in execution_sequence] *)
Fixpoint run_sequence (seq : list category) (parsed_args : classified)
  (results : list result) (w : World) : option (list result) * World :=
  match seq with
  | [] => (Some results, w)
  | c :: seq' =>
      match run_items c (get parsed_args c) parsed_args results w with
      | (Some results', w') => run_sequence seq' parsed_args results' w'
      | (None, w') => (None, w')
      end
  end.

(** [for option, value in parsed_args['options'].items()] *)
Fixpoint apply_options (opts : list (pystr * option_value))
  (results : list result) (w : World) : list result * World :=
  match opts with
  | [] => (results, w)
  | (option, _) :: opts' =>
      if decide (option = str "-console") then
        apply_options opts' (results ++ [(txt_console, PyTrue)])
          (config_set (str "interface_mode") (CfgStr (str "console")) w)
      else if decide (option = str "-bash") then
        apply_options opts' (results ++ [(txt_bash, PyTrue)])
          (config_set (str "enable_bash_syntax") (CfgBool true) w)
      else apply_options opts' results w
  end.

Definition execute_in_order (parsed_args : classified) (w : World)
  : option (list result) * World :=
  match run_sequence execution_sequence parsed_args [] w with
  | (Some results, w') =>
      let '(results', w'') := apply_options (options parsed_args) results w'
      in (Some results', w'')
  | (None, w') => (None, w')
  end.

(** *** Running a list of dispatches one after the other *)

Definition perform_one (d : dispatch) (parsed_args : classified)
  (results : list result) (w : World) : option (list result) * World :=
  match d with
  | Handle c it => try_item c it parsed_args results w
  | SwitchConsole =>
      (Some (results ++ [(txt_console, PyTrue)]),
       config_set (str "interface_mode") (CfgStr (str "console")) w)
  | EnableBash =>
      (Some (results ++ [(txt_bash, PyTrue)]),
       config_set (str "enable_bash_syntax") (CfgBool true) w)
  end.

Fixpoint perform (ds : list dispatch) (parsed_args : classified)
  (results : list result) (w : World) : option (list result) * World :=
  match ds with
  | [] => (Some results, w)
  | d :: ds' =>
      match perform_one d parsed_args results w with
      | (Some results', w') => perform ds' parsed_args results' w'
      | (None, w') => (None, w')
      end
  end.

(** [runs opts ds w rs w']: starting in world [w], every dispatch of [ds]
    is carried out in turn, each in the world the previous one left, and
    [rs] holds one entry per dispatch: the plain label with the returned
    value when the handler returned, the label with the reason and [False]
    when it raised. *)
Inductive runs (opts : list (pystr * option_value))
  : list dispatch -> World -> list result -> World -> Prop :=
| runs_nil w : runs opts [] w [] w
| runs_returned c it ds w success w' rs w'' :
    call c it opts w = (Returns success, w') ->
    runs opts ds w' rs w'' ->
    runs opts (Handle c it :: ds) w ((label c it, success) :: rs) w''
| runs_raised c it ds w reason w' rs w'' :
    call c it opts w = (Raises reason, w') ->
    runs opts ds w' rs w'' ->
    runs opts (Handle c it :: ds) w
         ((error_label c it reason, PyFalse) :: rs) w''
| runs_console ds w rs w'' :
    runs opts ds
         (config_set (str "interface_mode") (CfgStr (str "console")) w)
         rs w'' ->
    runs opts (SwitchConsole :: ds) w ((txt_console, PyTrue) :: rs) w''
| runs_bash ds w rs w'' :
    runs opts ds (config_set (str "enable_bash_syntax") (CfgBool true) w)
         rs w'' ->
    runs opts (EnableBash :: ds) w ((txt_bash, PyTrue) :: rs) w''.

(** No handler call ends in an exception that [except Exception] lets
    through. *)
Definition never_escapes : Prop :=
  forall c (it : item c) opts w, fst (call c it opts w) <> Escapes.

End Handlers.

End Executor.

(** ** Sample environments

    Concrete platforms, alias tables and handlers on which the definitions
    above can be evaluated. *)

Module Sample.

Import Classifier Executor.

(** A platform on which no path exists. *)
Definition nothing_exists : platform :=
  Platform posix (fun _ => Missing) (fun _ => false) (fun s => s).

(** A disk that takes every write; the file content is not looked at. *)
Definition write_unit (_ : gmap (list N) (list N)) (f : unit) : unit := f.

(** The table after [alias ll=ls -la] and [alias ls=dir]. *)
Definition two_aliases : @Alias.manager unit :=
  Alias.run write_unit
    [Alias.Add (str "ll") (str "ls -la"); Alias.Add (str "ls") (str "dir")]
    (Alias.Manager ∅ tt).

(** [repr] for strings without quotes or escapes. *)
Definition quote_repr (s : pystr) : pystr := [squote] ++ s ++ [squote].

(** What a logging handler writes down: the category and the command name
    or path it was called with, or the configuration key that was set. *)
Inductive event :=
| Ran (c : category) (what : pystr)
| Configured (key : pystr).

(** Handlers over a world that is the log of the calls made so far:
    built-ins and programs succeed, scripts raise, files and directories
    report failure. *)
Definition log_builtin (cmd : pystr) (_ : option pystr) (w : list event)
  : outcome * list event := (Returns PyTrue, w ++ [Ran Commands cmd]).
Definition log_unknown (cmd : pystr) (w : list event) : list event :=
  w ++ [Ran Commands cmd].
Definition log_path (c : category) (o : outcome) (p : pystr)
  (_ : list (pystr * option_value)) (w : list event)
  : outcome * list event := (o, w ++ [Ran c p]).
Definition log_config (key : pystr) (_ : config_value) (w : list event)
  : list event := w ++ [Configured key].

(** [execute_in_order] with the logging handlers. *)
Definition logged_run (parsed_args : classified) (w : list event)
  : option (list result) * list event :=
  execute_in_order log_builtin log_unknown
    (log_path Scripts (Raises (str "denied")))
    (log_path Files (Returns PyFalse))
    (log_path Directories (Returns PyFalse))
    (log_path Executables (Returns PyTrue))
    log_config quote_repr parsed_args w.

(** The log entry a dispatch leaves. *)
Definition event_of (d : dispatch) : event :=
  match d with
  | Handle Commands it => Ran Commands (fst it)
  | Handle Scripts it => Ran Scripts it
  | Handle Files it => Ran Files it
  | Handle Directories it => Ran Directories it
  | Handle Executables it => Ran Executables it
  | SwitchConsole => Configured (str "interface_mode")
  | EnableBash => Configured (str "enable_bash_syntax")
  end.

End Sample.

(** ** More string operations *)

Module Text.

(** [s == t] on strings *)
Fixpoint eqb (s t : pystr) {struct t} : bool :=
  match t, s with
  | [], [] => true
  | d :: t', c :: s' => (c =? d) && eqb s' t'
  | _, _ => false
  end.

(** [s.split(sep)] for a one-character separator: the pieces between the
    separators, empty pieces included; never an empty list. *)
Fixpoint split_on (sep : char) (s : pystr) : list pystr :=
  match s with
  | [] => [[]]
  | c :: s' =>
      if c =? sep then [] :: split_on sep s'
      else
        match split_on sep s' with
        | p :: ps => (c :: p) :: ps
        | [] => [[c]]
        end
  end.

(** [s.split(sep, 1)] for a one-character separator: the text before the
    first separator and the text after it, or the string alone. *)
Fixpoint split_first (sep : char) (s : pystr) : list pystr :=
  match s with
  | [] => [[]]
  | c :: s' =>
      if c =? sep then [[]; s']
      else
        match split_first sep s' with
        | p :: ps => (c :: p) :: ps
        | [] => [[c]]
        end
  end.

(** [s.split()]: the maximal runs of non-whitespace characters. *)
Fixpoint words_fuel (fuel : nat) (s : pystr) : list pystr :=
  match fuel with
  | O => []
  | S fuel' =>
      match lstrip s with
      | [] => []
      | s1 => let '(w, r) := word s1 in w :: words_fuel fuel' r
      end
  end.

Definition words (s : pystr) : list pystr := words_fuel (S (length s)) s.

(** [s.strip(chars)] *)
Fixpoint lstrip_chars (chars : list char) (s : pystr) : pystr :=
  match s with
  | [] => []
  | c :: s' =>
      if existsb (N.eqb c) chars then lstrip_chars chars s' else s
  end.

Definition rstrip_chars (chars : list char) (s : pystr) : pystr :=
  rev (lstrip_chars chars (rev s)).

Definition strip_chars (chars : list char) (s : pystr) : pystr :=
  rstrip_chars chars (lstrip_chars chars s).

(** Whether a string begins, or ends, with one of the given characters. *)
Definition starts_with_any (chars : list char) (s : pystr) : bool :=
  match s with
  | c :: _ => existsb (N.eqb c) chars
  | [] => false
  end.

Definition ends_with_any (chars : list char) (s : pystr) : bool :=
  starts_with_any chars (rev s).

(** Strings of ASCII characters; on these [str.lower] is computed here. *)
Definition is_ascii (s : pystr) : bool := forallb (fun c => c <? 128) s.

(** A non-empty run of characters none of which is whitespace. *)
Definition is_word (w : pystr) : bool :=
  match w with
  | [] => false
  | _ :: _ => forallb (fun c => negb (isspace c)) w
  end.

End Text.

(** ** Counting what the classifier filed *)

Module Tally.

Import Classifier.



End Tally.

(** ** Running the sub-commands of a line:
       [MultiCommandProcessor.execute_commands] *)

Module Batch.

Import Executor.

Section Runner.

(** The state the single-command processor works on, and the processor
    ([self.console._process_single_command]).  What is printed (the
    announcements, the failure message, the summary) and the elapsed times
    kept beside each result are left out. *)
Context {State : Type}.
Variable _process_single_command : pystr -> State -> outcome * State.

(** The body of [for i, cmd in enumerate(commands, 1)] for one command:
    an empty command is skipped; otherwise the command is processed and
    logged with [True], or with [False] when processing raised.  [None]
    means an exception has left [execute_commands]. *)
Definition run_command (cmd : pystr) (results : list (pystr * bool))
  (st : State) : option (list (pystr * bool)) * State :=
  match cmd with
  | [] => (Some results, st)
  | _ :: _ =>
      match _process_single_command cmd st with
      | (Returns _, st') => (Some (results ++ [(cmd, true)]), st')
      | (Raises _, st') => (Some (results ++ [(cmd, false)]), st')
      | (Escapes, st') => (None, st')
      end
  end.

Fixpoint run_commands (commands : list pystr)
  (results : list (pystr * bool)) (st : State)
  : option (list (pystr * bool)) * State :=
  match commands with
  | [] => (Some results, st)
  | cmd :: commands' =>
      match run_command cmd results st with
      | (Some results', st') => run_commands commands' results' st'
      | (None, st') => (None, st')
      end
  end.

(** [execute_commands]; beside the state it hands back the local
    [results], the list its summary is printed from. *)
Definition execute_commands (command_string : pystr) (st : State)
  : option (list (pystr * bool)) * State :=
  run_commands (Splitter.parse_commands command_string) [] st.

(** [batch commands st results st']: the non-empty commands are processed
    in turn, each in the state the one before it left; a command whose
    processing returned is logged with [True], one whose processing raised
    with [False]. *)
Inductive batch : list pystr -> State -> list (pystr * bool) -> State
                  -> Prop :=
| batch_nil st : batch [] st [] st
| batch_empty commands st results st' :
    batch commands st results st' ->
    batch ([] :: commands) st results st'
| batch_returned c cmd commands st v st' results st'' :
    _process_single_command (c :: cmd) st = (Returns v, st') ->
    batch commands st' results st'' ->
    batch ((c :: cmd) :: commands) st ((c :: cmd, true) :: results) st''
| batch_raised c cmd commands st e st' results st'' :
    _process_single_command (c :: cmd) st = (Raises e, st') ->
    batch commands st' results st'' ->
    batch ((c :: cmd) :: commands) st ((c :: cmd, false) :: results) st''.

End Runner.

End Batch.

(** ** The interactive console: [ConsoleInterface] *)

Module Console.

Import Classifier Executor Text.

(** The handlers [_process_single_command] chooses between; [External] is
    its last branch (run an executable or a system command). *)
Inductive target :=
| History | Help | Sysinfo | Clear | Slash | Cd | AliasSet | AliasList
| Unalias | ListFiles | Mkdir | Touch | Rm | Cp | Mv | Find | Cat | Echo
| ColorEcho | Color | Open | Pwd | Ps | Kill | Whoami | Hostname | Date
| Time | Ping | Ipconfig | Netstat | Base64 | Hex | External.

(** What a call of [input] gives: a line, [EOFError], or
    [KeyboardInterrupt]. *)
Inductive typed := Line (s : pystr) | EndOfInput | Interrupted.

(** The path shown in the prompt: [display_cwd] of [run_interactive]. *)
Definition display_cwd (cwd : pystr) : pystr :=
  if (40 <? length cwd)%nat
  then str "..." ++ drop (length cwd - 37) cwd
  else cwd.

(** [command_history.append(user_input)], then [pop(0)] when more than a
    hundred are kept. *)
Definition remember (user_input : pystr) (history : list pystr)
  : list pystr :=
  let history' := history ++ [user_input] in
  if (100 <? length history')%nat then drop 1 history' else history'.

Section Shell.

Variable os : platform.

(** [cmd_lower == word] and [cmd_lower.startswith(word)] *)
Definition is_ (cmd_lower : pystr) (word : string) : bool :=
  Text.eqb cmd_lower (str word).
Definition starts (cmd_lower : pystr) (word : string) : bool :=
  startswith cmd_lower (str word).

(** The [if]/[elif] chain of [_process_single_command], first match
    wins. *)
Definition route (command : pystr) : target :=
  let cmd_lower := lower os command in
  if is_ cmd_lower "history" then History
  else if is_ cmd_lower "help" then Help
  else if is_ cmd_lower "sysinfo" then Sysinfo
  else if is_ cmd_lower "clear" then Clear
  else if startswith command [slash] then Slash
  else if starts cmd_lower "cd " then Cd
  else if starts cmd_lower "alias " then AliasSet
  else if is_ cmd_lower "alias" then AliasList
  else if starts cmd_lower "unalias " then Unalias
  else if starts cmd_lower "ls" || starts cmd_lower "dir" then ListFiles
  else if starts cmd_lower "mkdir " then Mkdir
  else if starts cmd_lower "touch " then Touch
  else if starts cmd_lower "rm " then Rm
  else if starts cmd_lower "cp " then Cp
  else if starts cmd_lower "mv " then Mv
  else if starts cmd_lower "find " then Find
  else if starts cmd_lower "cat " || starts cmd_lower "type " then Cat
  else if starts cmd_lower "echo " then Echo
  else if starts cmd_lower "color_echo " then ColorEcho
  else if starts cmd_lower "color " then Color
  else if starts cmd_lower "open " then Open
  else if is_ cmd_lower "pwd" then Pwd
  else if is_ cmd_lower "ps" || is_ cmd_lower "tasklist" then Ps
  else if starts cmd_lower "kill " || starts cmd_lower "taskkill " then Kill
  else if is_ cmd_lower "whoami" then Whoami
  else if is_ cmd_lower "hostname" then Hostname
  else if is_ cmd_lower "date" then Date
  else if is_ cmd_lower "time" then Time
  else if starts cmd_lower "ping " then Ping
  else if is_ cmd_lower "ipconfig" || is_ cmd_lower "ifconfig" then Ipconfig
  else if is_ cmd_lower "netstat" then Netstat
  else if starts cmd_lower "base64 " then Base64
  else if starts cmd_lower "hex " then Hex
  else External.

Context {File World : Type}.
Variable write_file : gmap (list N) (list N) -> File -> File.

(** The console: its alias manager, and everything else (files,
    processes, the terminal, the history, [script_state], [config]).  What
    is printed is left out, as for [Alias]. *)
Record session := Session {
  alias_manager : @Alias.manager File;
  world : World
}.

Definition with_manager (s : session) (m : @Alias.manager File) : session :=
  Session m (world s).

(** [input(...)] reads the terminal. *)
Variable input : World -> typed * World.
(** The handlers that are not modelled further, by target. *)
Variable handler : target -> pystr -> session -> outcome * session.
(** The built-ins behind the flag-commands, and the warning for an unknown
    one (see [Executor._execute_command]). *)
Variable builtin : pystr -> option pystr -> session -> outcome * session.
Variable print_unknown : pystr -> session -> session.

Definition _handle_alias_command (command : pystr) (s : session)
  : outcome * session :=
  match split_first 61 (strip (drop 6 command)) with
  | [p0; p1] =>
      let name := strip p0 in
      let cmd := strip_chars [dquote; squote] (strip p1) in
      match name with
      | [] => (Returns PyNone, s)
      | _ :: _ =>
          (Returns PyNone,
           with_manager s
             (snd (Alias.add_alias write_file name cmd (alias_manager s))))
      end
  | _ => (Returns PyNone, s)
  end.

Definition _handle_unalias_command (command : pystr) (s : session)
  : outcome * session :=
  let name := strip (drop 8 command) in
  match name with
  | [] => (Returns PyNone, s)
  | _ :: _ =>
      if Text.eqb name (str "-a") || Text.eqb name (str "--all") then
        match input (world s) with
        | (Line confirm, w') =>
            let s' := Session (alias_manager s) w' in
            if Text.eqb (lower os confirm) (str "y")
            then (Returns PyNone,
                  with_manager s'
                    (Alias.clear_aliases write_file (alias_manager s')))
            else (Returns PyNone, s')
        | (EndOfInput, w') =>
            (Raises (str "EOF when reading a line"),
             Session (alias_manager s) w')
        | (Interrupted, w') => (Escapes, Session (alias_manager s) w')
        end
      else
        (Returns PyNone,
         with_manager s
           (snd (Alias.remove_alias write_file name (alias_manager s))))
  end.

(** The branch taken for a routed command. *)
Definition dispatch (command : pystr) (s : session) : outcome * session :=
  match route command with
  | Slash =>
      let parts := split_max1 (drop 1 command) in
      let cmd := match parts with p :: _ => p | [] => [] end in
      let arg := match parts with _ :: a :: _ => Some a | _ => None end in
      _execute_command builtin print_unknown cmd arg s
  | AliasSet => _handle_alias_command command s
  | Unalias => _handle_unalias_command command s
  | t => handler t command s
  end.

(** [_process_single_command]: expand the alias, dispatch, and catch every
    [Exception]. *)
Definition _process_single_command (command : pystr) (s : session)
  : outcome * session :=
  let expanded_command := Alias.expand_alias (alias_manager s) command in
  let command' :=
    if negb (Text.eqb expanded_command command) then expanded_command
    else command in
  match dispatch command' s with
  | (Returns _, s') => (Returns PyNone, s')
  | (Raises _, s') => (Returns PyNone, s')
  | (Escapes, s') => (Escapes, s')
  end.

(** [process_command]: a line with a [+] in it goes to the splitter. *)
Definition process_command (command : pystr) (s : session)
  : outcome * session :=
  if existsb (N.eqb plus) command then
    match Batch.execute_commands _process_single_command command s with
    | (Some _, s') => (Returns PyNone, s')
    | (None, s') => (Escapes, s')
    end
  else _process_single_command command s.

End Shell.

End Console.

(** ** Colours: [ColorManager] *)

Module Palette.

Import Executor.

(** The colour names of [color_map] and [Colors.COLOR_MAP]. *)
Inductive color :=
| black | blue | green | cyan | red | magenta | yellow | white
| lightblack | lightblue | lightgreen | lightcyan | lightred
| lightmagenta | lightyellow | lightwhite.

(** What the program writes to [sys.stdout]: the escape codes of colorama,
    by what they select ([Fore.X], [Back.X], [Style.BRIGHT],
    [Style.RESET_ALL]), and text. *)
Inductive written :=
| Fore (c : color)
| Back (c : color)
| Bright
| ResetAll
| Text (s : pystr).

(** [self.current_foreground] and [self.current_background]. *)
Record manager := Manager {
  current_foreground : color;
  current_background : color
}.

(** The name the colour has as a string. *)
Definition name_of (c : color) : pystr :=
  match c with
  | black => str "black" | blue => str "blue" | green => str "green"
  | cyan => str "cyan" | red => str "red" | magenta => str "magenta"
  | yellow => str "yellow" | white => str "white"
  | lightblack => str "lightblack" | lightblue => str "lightblue"
  | lightgreen => str "lightgreen" | lightcyan => str "lightcyan"
  | lightred => str "lightred" | lightmagenta => str "lightmagenta"
  | lightyellow => str "lightyellow" | lightwhite => str "lightwhite"
  end.

(** [Colors.COLOR_MAP.get(name, Fore.WHITE)]: every name is a key. *)
Definition fore_code (c : color) : written := Fore c.

(** [Colors.COLOR_MAP.get(f'bg_{name}', Back.BLACK)]: only the eight plain
    colours have a [bg_] key. *)
Definition back_code (c : color) : written :=
  match c with
  | black | red | green | yellow | blue | magenta | cyan | white => Back c
  | _ => Back black
  end.

(** What [update_global_color] writes to the terminal. *)
Definition update_global_color (self : manager) : list written :=
  [back_code (current_background self);
   fore_code (current_foreground self)].

(** [Colors.SUCCESS], [Colors.ERROR] and [Colors.RESET]. *)
Definition SUCCESS : list written := [Fore green; Bright].
Definition ERROR : list written := [Fore red; Bright].
Definition RESET : list written := [ResetAll].

(** [print(line)]: the line, then a newline. *)
Definition print (line : list written) : list written :=
  line ++ [Text [10]].

(** The message of [set_color] when it has set the colours; the text
    before the name of the background and the text between the two names
    are given by their code points. *)
Definition success_message (bg fg : color) : list written :=
  print (SUCCESS
         ++ [Text ([39068; 33394; 24050; 35774; 32622; 20026; 58; 32;
                    32972; 26223; 61]
                   ++ name_of bg
                   ++ [44; 32; 21069; 26223; 61]
                   ++ name_of fg)]
         ++ RESET).

(** The message of [set_color] for a code that has not two characters. *)
Definition usage_message : list written :=
  print (ERROR
         ++ [Text [29992; 27861; 58; 32; 99; 111; 108; 111; 114; 32; 60;
                   32972; 26223; 62; 60; 21069; 26223; 62; 32; 40; 20363;
                   22914; 58; 32; 99; 111; 108; 111; 114; 32; 48; 65; 41]]
         ++ RESET).

(** The dictionary [color_map] of [set_color], keyed by one-character
    strings. *)
Definition color_map (key : pystr) : option color :=
  match key with
  | [c] =>
      if c =? 48 then Some black else if c =? 49 then Some blue
      else if c =? 50 then Some green else if c =? 51 then Some cyan
      else if c =? 52 then Some red else if c =? 53 then Some magenta
      else if c =? 54 then Some yellow else if c =? 55 then Some white
      else if c =? 56 then Some lightblack
      else if c =? 57 then Some lightblue
      else if c =? 65 then Some lightgreen
      else if c =? 66 then Some lightcyan
      else if c =? 67 then Some lightred
      else if c =? 68 then Some lightmagenta
      else if c =? 69 then Some lightyellow
      else if c =? 70 then Some lightwhite
      else None
  | _ => None
  end.

Section Upper.

(** [str.upper] of one character outside ASCII (it can give more than one
    character). *)
Variable unicode_upper : char -> pystr.

(** [ch.upper()] for a one-character string. *)
Definition upper1 (c : char) : pystr :=
  if c <? 128 then
    [if (97 <=? c) && (c <=? 122) then c - 32 else c]
  else unicode_upper c.

(** [set_color]: what it returns ([None] when it falls off its end), the
    manager afterwards, and what it wrote to the terminal, in order: the
    codes of [update_global_color] and the messages it prints.  The writes
    are taken to succeed. *)
Definition set_color (color_code : pystr) (self : manager)
  : value * manager * list written :=
  match color_code with
  | [b; f] =>
      match color_map (upper1 b), color_map (upper1 f) with
      | Some bg, Some fg =>
          let self' := Manager fg bg in
          (PyTrue, self',
           update_global_color self'
           ++ success_message (current_background self')
                              (current_foreground self'))
      | _, _ => (PyNone, self, [])
      end
  | _ => (PyFalse, self, usage_message)
  end.

End Upper.

(** The value of a hexadecimal digit, in either case. *)
Definition hex_digit (c : char) : option nat :=
  if (48 <=? c) && (c <=? 57) then Some (N.to_nat (c - 48))
  else if (65 <=? c) && (c <=? 70) then Some (N.to_nat (c - 55))
  else if (97 <=? c) && (c <=? 102) then Some (N.to_nat (c - 87))
  else None.

(** The colours in the order of the Windows colour codes [0] to [F]. *)
Definition numbered : list color :=
  [black; blue; green; cyan; red; magenta; yellow; white;
   lightblack; lightblue; lightgreen; lightcyan; lightred;
   lightmagenta; lightyellow; lightwhite].

(** Equality of what [color_map] answers. *)
Definition color_eqb (a b : option color) : bool :=
  match a, b with
  | None, None => true
  | Some x, Some y =>
      match x, y with
      | black, black | blue, blue | green, green | cyan, cyan | red, red
      | magenta, magenta | yellow, yellow | white, white
      | lightblack, lightblack | lightblue, lightblue
      | lightgreen, lightgreen | lightcyan, lightcyan | lightred, lightred
      | lightmagenta, lightmagenta | lightyellow, lightyellow
      | lightwhite, lightwhite => true
      | _, _ => false
      end
  | _, _ => false
  end.

End Palette.

(** ** Settings: [Config._validate_config] and [Config.load] *)

Module Settings.

Section Json.

(** Floating-point numbers are kept abstract: [float_lt f z] is [f < z]
    and [float_gt f z] is [f > z] for an integer [z]. *)
Context {F : Type}.
Variable float_lt : F -> Z -> bool.
Variable float_gt : F -> Z -> bool.

(** A value read by [json.load]; lists and objects are not told apart. *)
Inductive json :=
| JNull
| JBool (b : bool)
| JInt (z : Z)
| JFloat (f : F)
| JStr (s : list N)
| JCompound.

(** [max(10, min(100, v))]: [min] answers [v] when [v < 100] and [100]
    otherwise, [max] answers its second argument when it is [> 10] and
    [10] otherwise; a boolean counts as the integer 0 or 1; comparing
    [None], a string, a list or an object with an integer raises
    [TypeError] ([None] here). *)
Definition clamp (v : json) : option json :=
  match v with
  | JInt z =>
      let x := if (z <? 100)%Z then z else 100%Z in
      Some (JInt (if (x >? 10)%Z then x else 10%Z))
  | JBool _ => Some (JInt 10)
  | JFloat f =>
      if float_lt f 100 then
        if float_gt f 10 then Some (JFloat f) else Some (JInt 10)
      else Some (JInt 100)
  | JNull | JStr _ | JCompound => None
  end.

(** [validated['language'] not in ['zh', 'en']] *)
Definition language_known (v : json) : bool :=
  match v with
  | JStr s => Text.eqb s (str "zh") || Text.eqb s (str "en")
  | _ => false
  end.

(** The value a key has before the two corrections: the file's, when the
    file has the key, else the one already held. *)
Definition merged (data config_data : gmap (list N) json) (key : list N)
  : option json :=
  (fun d => default d (config_data !! key)) <$> data !! key.

(** The language after its correction. *)
Definition fix_language (v : json) : json :=
  if language_known v then v else JStr (str "zh").

(** [_validate_config(config_data)] for [self.data = data]; [None] when it
    raises. *)
Definition _validate_config (data config_data : gmap (list N) json)
  : option (gmap (list N) json) :=
  let validated :=
    map_imap (fun key d => Some (default d (config_data !! key))) data in
  match
    match validated !! str "process_list_page_size" with
    | Some v =>
        match clamp v with
        | Some v' => Some (<[str "process_list_page_size" := v']> validated)
        | None => None
        end
    | None => Some validated
    end
  with
  | Some validated =>
      match validated !! str "language" with
      | Some v =>
          if negb (language_known v)
          then Some (<[str "language" := JStr (str "zh")]> validated)
          else Some validated
      | None => Some validated
      end
  | None => None
  end.

(** A page size that needs no correction, and the key it is kept under. *)
Definition page_size_ok (v : json) : Prop :=
  match v with
  | JInt z => (10 <= z <= 100)%Z
  | JFloat f => float_lt f 100 = true /\ float_gt f 10 = true
  | _ => False
  end.

(** What [load] finds at [config_path]: no file, a file that is not JSON,
    a JSON object, or some other JSON value. *)
Inductive config_file :=
| NoFile
| NotJson
| Object (config_data : gmap (list N) json)
| OtherValue.

(** [load]: [self.data] afterwards.  Every failure (of the parser, of
    [keys()] on a value that is no object, of the validation) is caught and
    leaves [self.data] as it was. *)
Definition load (file : config_file) (data : gmap (list N) json)
  : gmap (list N) json :=
  match file with
  | Object config_data =>
      match _validate_config data config_data with
      | Some validated => validated ∪ data
      | None => data
      end
  | NoFile | NotJson | OtherValue => data
  end.

End Json.

End Settings.

(** ** Sample environments for the console and the settings *)

Module Sample2.

Import Classifier Executor Console Settings.

(** A single-command processor over a counter: it counts the commands it
    is given, and raises on the command [fail]. *)
Definition counting (cmd : pystr) (n : nat) : outcome * nat :=
  if Text.eqb cmd (str "fail") then (Raises (str "failed"), S n)
  else (Returns PyNone, S n).

(** A console whose other handlers all raise, with no file and no world
    to speak of; the terminal answers [n] to every question. *)
Definition answers_no (w : unit) : typed * unit := (Line (str "n"), w).
Definition raising (_ : target) (_ : pystr) (s : @session unit unit)
  : outcome * @session unit unit := (Raises (str "boom"), s).
Definition no_builtin (_ : pystr) (_ : option pystr)
  (s : @session unit unit) : outcome * @session unit unit :=
  (Returns PyTrue, s).
Definition silent (_ : pystr) (s : @session unit unit)
  : @session unit unit := s.

Definition fresh : @session unit unit := Session (Alias.Manager ∅ tt) tt.

(** A disk that keeps what was written last: the alias file holds a
    table, or does not exist. *)
Definition write_disk (table : gmap (list N) (list N))
  (_ : option (gmap (list N) (list N))) : option (gmap (list N) (list N)) :=
  Some table.
Definition read_disk (file : option (gmap (list N) (list N)))
  : Alias.contents :=
  match file with
  | Some table => Alias.Object table
  | None => Alias.Absent
  end.

(** An alias file written by hand, binding [alias] to [echo]. *)
Definition edited : option (gmap (list N) (list N)) :=
  Some (<[str "alias" := str "echo"]> ∅).

(** Settings without floating-point values. *)
Definition never (_ : Empty_set) (_ : Z) : bool := false.

Definition defaults : gmap (list N) (@json Empty_set) :=
  <[str "process_list_page_size" := JInt 20]>
    (<[str "language" := JStr (str "zh")]>
       (<[str "theme" := JStr (str "powershell")]> ∅)).

(** A file with a page size out of range, an unknown language, a theme
    and a key that is no setting. *)
Definition eager : gmap (list N) (@json Empty_set) :=
  <[str "process_list_page_size" := JInt 5000]>
    (<[str "language" := JStr (str "fr")]>
       (<[str "theme" := JStr (str "dark")]>
          (<[str "colour" := JBool true]> ∅))).

(** The same file with the page size given as a string. *)
Definition sloppy : gmap (list N) (@json Empty_set) :=
  <[str "process_list_page_size" := JStr (str "many")]> eager.

End Sample2.

(** * Properties *)

(** ** Trimming *)

Section Trimming.

Lemma lstrip_app_solid (a r : pystr) (q : char) :
  isspace q = false -> lstrip (a ++ q :: r) = lstrip a ++ q :: r.
Proof.
  intros Hq. induction a as [|c a IH]; simpl.
  - now rewrite Hq.
  - destruct (isspace c); [exact IH | reflexivity].
Qed.

Lemma rstrip_app_solid (a r : pystr) (q : char) :
  isspace q = false -> rstrip (a ++ q :: r) = a ++ q :: rstrip r.
Proof.
  intros Hq. unfold rstrip.
  rewrite rev_app_distr. simpl. rewrite <- app_assoc. simpl.
  rewrite (lstrip_app_solid _ _ _ Hq).
  rewrite rev_app_distr. simpl. rewrite rev_involutive.
  now rewrite <- app_assoc.
Qed.

Lemma strip_ends_solid (a : pystr) (q : char) :
  isspace q = false -> strip (a ++ [q]) = lstrip a ++ [q].
Proof.
  intros Hq. unfold strip. rewrite (lstrip_app_solid _ _ _ Hq).
  now rewrite (rstrip_app_solid _ _ _ Hq).
Qed.

End Trimming.

(** ** The splitter *)

Module SplitterFacts.

Import Splitter.

Lemma step_skipped st c rest :
  skip_next st = true ->
  step st c rest =
  State (commands st) (current_command st ++ [c])
        (in_quotes st) (quote_char st) false.
Proof. intros H. unfold step. now rewrite H. Qed.

Lemma step_plain st c rest :
  skip_next st = false -> is_plain c = true ->
  step st c rest =
  State (commands st) (current_command st ++ [c])
        (in_quotes st) (quote_char st) false.
Proof.
  intros Hs Hc. unfold step. rewrite Hs.
  unfold is_plain in Hc.
  apply negb_true_iff in Hc.
  apply orb_false_iff in Hc as [Hc Hb].
  apply orb_false_iff in Hc as [Hp Hq].
  rewrite Hb, Hq, Hp. reflexivity.
Qed.

Lemma scan_plain s : forall st,
  skip_next st = false -> forallb is_plain s = true ->
  scan st s =
  State (commands st) (current_command st ++ s)
        (in_quotes st) (quote_char st) false.
Proof.
  induction s as [|c s IH]; intros st Hs Hall; simpl.
  - rewrite app_nil_r. destruct st; simpl in *; now subst.
  - simpl in Hall. apply andb_true_iff in Hall as [Hc Hall].
    rewrite (step_plain _ _ _ Hs Hc).
    rewrite IH by (simpl; auto). simpl.
    now rewrite <- app_assoc.
Qed.

(** Only a backslash makes the loop body look at the next character. *)
Lemma step_lookahead st c r1 r2 :
  not_backslash c = true -> step st c r1 = step st c r2.
Proof.
  intros H. unfold not_backslash in H. apply negb_true_iff in H.
  unfold step. now rewrite H.
Qed.

Lemma scan_app a : forall st b,
  forallb not_backslash a = true ->
  scan st (a ++ b) = scan (scan st a) b.
Proof.
  induction a as [|c a IH]; intros st b Hall; simpl; [reflexivity|].
  simpl in Hall. apply andb_true_iff in Hall as [Hc Hall].
  rewrite (step_lookahead st c (a ++ b) a Hc). now apply IH.
Qed.

Lemma step_inside st q c rest :
  skip_next st = false -> in_quotes st = true -> quote_char st = Some q ->
  inside q c = true ->
  step st c rest =
  State (commands st) (current_command st ++ [c]) true (Some q) false.
Proof.
  intros Hs Hi Hq Hc. unfold inside, not_backslash in Hc.
  apply andb_true_iff in Hc as [Hne Hb].
  apply negb_true_iff in Hne. apply negb_true_iff in Hb.
  unfold step. rewrite Hs, Hb, Hi, Hq. simpl.
  rewrite N.eqb_sym, Hne.
  destruct (is_quote c); [reflexivity|].
  now rewrite andb_false_r.
Qed.

Lemma scan_inside s : forall st q,
  skip_next st = false -> in_quotes st = true -> quote_char st = Some q ->
  forallb (inside q) s = true ->
  scan st s =
  State (commands st) (current_command st ++ s) true (Some q) false.
Proof.
  induction s as [|c s IH]; intros st q Hs Hi Hq Hall; simpl.
  - rewrite app_nil_r. destruct st; simpl in *; now subst.
  - simpl in Hall. apply andb_true_iff in Hall as [Hc Hall].
    rewrite (step_inside _ _ _ _ Hs Hi Hq Hc).
    rewrite (IH _ q) by (simpl; auto). simpl.
    now rewrite <- app_assoc.
Qed.

Lemma inside_not_backslash q s :
  forallb (inside q) s = true -> forallb not_backslash s = true.
Proof.
  induction s as [|c s IH]; simpl; [reflexivity|].
  intros H. apply andb_true_iff in H as [Hc H].
  unfold inside in Hc. apply andb_true_iff in Hc as [_ Hc].
  rewrite Hc. now apply IH.
Qed.

Lemma plain_not_backslash s :
  forallb is_plain s = true -> forallb not_backslash s = true.
Proof.
  induction s as [|c s IH]; simpl; [reflexivity|].
  intros H. apply andb_true_iff in H as [Hc H].
  unfold is_plain in Hc. apply negb_true_iff in Hc.
  apply orb_false_iff in Hc as [_ Hc].
  unfold not_backslash. rewrite Hc. now apply IH.
Qed.

(** *** Raw segments *)








(** *** Quoted regions with escapes *)

Lemma quote_not_backslash q : is_quote q = true -> (q =? backslash) = false.
Proof.
  unfold is_quote. intros H.
  apply orb_true_iff in H as [H|H]; apply N.eqb_eq in H; now subst.
Qed.

(** Inside quotes the text up to the closing quote is appended, escapes
    applied, and no segment is ended. *)
Lemma scan_body (n : nat) : forall mid, (length mid <= n)%nat ->
  forall rest cmds cur q,
    body q mid = true ->
    scan (State cmds cur true (Some q) false) (mid ++ rest)
    = scan (State cmds (cur ++ kept mid) true (Some q) false) rest.
Proof.
  induction n as [|n IH]; intros mid Hlen rest cmds cur q Hb.
  { destruct mid; [simpl; now rewrite app_nil_r | simpl in Hlen; lia]. }
  destruct mid as [|c m]; [simpl; now rewrite app_nil_r|].
  cbn [body kept] in *. cbn [app scan]. unfold step. cbn [skip_next].
  destruct (c =? backslash) eqn:Eb.
  - destruct m as [|d m']; [discriminate Hb|].
    cbn [app scan]. rewrite step_skipped by reflexivity.
    cbn [commands current_command in_quotes quote_char].
    rewrite IH by (try assumption; simpl in Hlen; lia).
    now rewrite <- !app_assoc.
  - apply andb_true_iff in Hb as [Hc Hb]. apply negb_true_iff in Hc.
    assert (Hstep :
      (if is_quote c
       then if negb true
            then State cmds (cur ++ [c]) true (Some c) false
            else if quote_matches (Some q) c
                 then State cmds (cur ++ [c]) false None false
                 else State cmds (cur ++ [c]) true (Some q) false
       else if (c =? plus) && negb true
            then match cur with
                 | [] => State cmds cur true (Some q) false
                 | _ :: _ => State (cmds ++ [strip cur]) [] true (Some q) false
                 end
            else State cmds (cur ++ [c]) true (Some q) false)
      = State cmds (cur ++ [c]) true (Some q) false).
    { simpl. rewrite N.eqb_sym, Hc, andb_false_r.
      now destruct (is_quote c). }
    cbn [commands current_command in_quotes quote_char].
    rewrite Hstep.
    rewrite IH by (try assumption; simpl in Hlen; lia).
    now rewrite <- app_assoc.
Qed.

(** A whole quoted region, escapes allowed, scanned from outside quotes. *)
Lemma scan_region q mid rest cmds cur qc :
  is_quote q = true -> body q mid = true ->
  scan (State cmds cur false qc false) (q :: mid ++ q :: rest)
  = scan (State cmds (cur ++ q :: kept mid ++ [q]) false None false) rest.
Proof.
  intros Hq Hb. pose proof (quote_not_backslash q Hq) as Hnb.
  cbn [scan]. unfold step. cbn [skip_next].
  rewrite Hnb, Hq. cbn [negb in_quotes commands current_command].
  rewrite (scan_body (length mid) mid (le_n _) (q :: rest) _ _ q Hb).
  cbn [scan]. unfold step. cbn [skip_next].
  rewrite Hnb, Hq. cbn [negb in_quotes quote_char quote_matches].
  rewrite N.eqb_refl. cbn [commands current_command].
  f_equal. f_equal. rewrite <- !app_assoc. reflexivity.
Qed.

(** Without a backslash the text between the quotes is kept as it is. *)
Lemma inside_body q mid :
  forallb (inside q) mid = true -> body q mid = true /\ kept mid = mid.
Proof.
  induction mid as [|c m IH]; intros H; [split; reflexivity|].
  simpl in H. apply andb_true_iff in H as [Hc H].
  unfold inside, not_backslash in Hc.
  apply andb_true_iff in Hc as [Hne Hb]. apply negb_true_iff in Hb.
  destruct (IH H) as [IH1 IH2].
  cbn [body kept]. rewrite Hb, Hne, IH1, IH2. now split.
Qed.

End SplitterFacts.

Section SplitterClaims.

Import Splitter SplitterFacts.

(** C1 (the code departs from the claim).  An escaped character is appended
    twice, once when the backslash is read and once more when the character
    itself is passed over: from any state outside a skip, scanning a
    backslash followed by [c] appends [c; c] and nothing else happens.  The
    pair is indeed never a separator or a quote toggle, but the four
    characters [a\+b] split to the one segment [a++b], not [a+b].  (With
    two backslashes before the separator the second one is the escaped
    character and the line splits at the [+].) *)
Theorem escaped_character_appended_twice :
  (forall cmds cur q qc c rest,
     Splitter.scan (Splitter.State cmds cur q qc false)
                   (backslash :: c :: rest)
     = Splitter.scan (Splitter.State cmds (cur ++ [c; c]) q qc false) rest)
  /\ Splitter.parse_commands (str "a\+b") = [str "a++b"]
  /\ Splitter.parse_commands (str "a\+b") <> [str "a+b"]
  /\ Splitter.parse_commands (str "a\\+b") = [str "a\\"; str "b"].
Proof.
  split; [|split; [|split]].
  - intros. simpl. unfold step at 2. simpl.
    rewrite step_skipped by reflexivity. simpl.
    now rewrite <- app_assoc.
  - reflexivity.
  - discriminate.
  - reflexivity.
Qed.


Lemma step_emits st c rest :
  Forall trimmed_nonempty (commands st) ->
  Forall trimmed_nonempty (commands (step st c rest)).
Proof.
  intros H. unfold step.
  destruct (skip_next st); [exact H|].
  destruct (c =? backslash), rest; simpl;
    repeat match goal with
           | |- context [if ?b then _ else _] => destruct b; simpl
           end; try exact H;
    destruct (current_command st) eqn:E; simpl; try exact H;
    (apply Forall_app; split; [exact H|]; constructor; [|constructor];
     eexists; split; [|reflexivity]; discriminate).
Qed.

Lemma scan_emits s : forall st,
  Forall trimmed_nonempty (commands st) ->
  Forall trimmed_nonempty (commands (scan st s)).
Proof.
  induction s as [|c s IH]; intros st H; simpl; [exact H|].
  apply IH. now apply step_emits.
Qed.



(** C9.  Wherever a quote [q] is met outside quotes, the region it opens,
    up to the quote that closes it, is copied into the current segment,
    quotes included, and no segment is ended inside it, whatever
    separators, quotes of the other kind and escaped characters (an
    escaped [q] among them) it contains.  An escaped character is copied
    there as the loop copies it everywhere, twice and without its
    backslash; a region without backslash is copied as it is.  So a line
    made of plain text around one such region is a single sub-command that
    still holds both quotes. *)
Theorem quoted_separator_not_split :
  (forall q mid rest cmds cur qc,
     is_quote q = true -> body q mid = true ->
     Splitter.scan (Splitter.State cmds cur false qc false)
                   (q :: mid ++ q :: rest)
     = Splitter.scan
         (Splitter.State cmds (cur ++ q :: kept mid ++ [q]) false None false)
         rest)
  /\ (forall q pre mid post,
        is_quote q = true -> body q mid = true ->
        forallb is_plain pre = true -> forallb is_plain post = true ->
        Splitter.parse_commands (pre ++ q :: mid ++ q :: post)
        = [lstrip pre ++ q :: kept mid ++ q :: rstrip post])
  /\ (forall q mid,
        forallb (inside q) mid = true ->
        body q mid = true /\ kept mid = mid).
Proof.
  split; [intros; now apply scan_region|].
  split; [|intros q mid; apply inside_body].
  intros q pre mid post Hq Hmid Hpre Hpost.
  assert (Hsp : isspace q = false).
  { unfold is_quote in Hq.
    apply orb_true_iff in Hq as [H|H]; apply N.eqb_eq in H; now subst. }
  unfold parse_commands.
  rewrite scan_app by now apply plain_not_backslash.
  rewrite (scan_plain pre initial eq_refl Hpre).
  cbn [commands current_command in_quotes quote_char initial app].
  rewrite scan_region by assumption.
  rewrite (scan_plain post (State [] _ false None false) eq_refl Hpost).
  unfold finish. cbn [commands current_command app].
  destruct ((pre ++ q :: kept mid ++ [q]) ++ post) eqn:E.
  { destruct pre; discriminate. }
  rewrite <- E. f_equal.
  unfold strip.
  replace ((pre ++ q :: kept mid ++ [q]) ++ post)
    with (pre ++ q :: kept mid ++ q :: post)
    by (rewrite <- !app_assoc; simpl; now rewrite <- app_assoc).
  rewrite (lstrip_app_solid _ _ _ Hsp).
  replace (lstrip pre ++ q :: kept mid ++ q :: post)
    with ((lstrip pre ++ q :: kept mid) ++ q :: post)
    by now rewrite <- app_assoc.
  rewrite (rstrip_app_solid _ _ _ Hsp).
  now rewrite <- app_assoc.
Qed.

Lemma quoted_separator_not_split_witness :
  is_quote dquote = true
  /\ body dquote [97; backslash; dquote; plus; 98] = true
  /\ forallb (inside dquote) [plus] = true
  /\ forallb is_plain [97] = true
  /\ forallb is_plain [98] = true
  /\ Splitter.scan (Splitter.State [] [97] false None false)
                   [dquote; 97; backslash; dquote; plus; 98; dquote;
                    plus; 98]
     = Splitter.scan
         (Splitter.State []
            [97; dquote; 97; dquote; dquote; plus; 98; dquote]
            false None false)
         [plus; 98]
  /\ Splitter.parse_commands
       [97; dquote; 97; backslash; dquote; plus; 98; dquote; 98]
     = [[97; dquote; 97; dquote; dquote; plus; 98; dquote; 98]]
  /\ Splitter.parse_commands [97; dquote; plus; dquote; 98]
     = [[97; dquote; plus; dquote; 98]]
  /\ kept [plus] = [plus].
Proof.
  do 5 (split; [reflexivity|]). split; [|split; [|split]].
  - exact (proj1 quoted_separator_not_split dquote
             [97; backslash; dquote; plus; 98] [plus; 98] [] [97] None
             eq_refl eq_refl).
  - exact (proj1 (proj2 quoted_separator_not_split) dquote [97]
             [97; backslash; dquote; plus; 98] [98]
             eq_refl eq_refl eq_refl eq_refl).
  - exact (proj1 (proj2 quoted_separator_not_split) dquote [97] [plus] [98]
             eq_refl eq_refl eq_refl eq_refl).
  - exact (proj2 (proj2 (proj2 quoted_separator_not_split) dquote [plus]
                    eq_refl)).
Defined.

(** C10.  A backslash with no character after it is appended to the
    current segment like any other character, so a line that ends in a
    backslash ends its last sub-command with that backslash; [a\] splits to
    the single segment [a\]. *)
Theorem trailing_backslash_kept :
  (forall st,
     Splitter.step st backslash []
     = Splitter.State (commands st) (current_command st ++ [backslash])
                      (in_quotes st) (quote_char st) false)
  /\ (forall s, exists cmds seg,
        Splitter.parse_commands (s ++ [backslash])
        = cmds ++ [seg ++ [backslash]])
  /\ Splitter.parse_commands (str "a\") = [str "a\"].
Proof.
  assert (Hlast : forall st,
     step st backslash []
     = State (commands st) (current_command st ++ [backslash])
             (in_quotes st) (quote_char st) false).
  { intros st. unfold step. destruct (skip_next st); reflexivity. }
  split; [exact Hlast|]. split; [|reflexivity].
  intros s. unfold parse_commands.
  assert (H : forall st, exists cur,
             current_command (scan st (s ++ [backslash]))
             = cur ++ [backslash]).
  { induction s as [|c s IH]; intros st; simpl.
    - rewrite Hlast. simpl. eauto.
    - apply IH. }
  destruct (H initial) as [cur Hcur].
  unfold finish. rewrite Hcur.
  destruct (cur ++ [backslash]) eqn:E; [destruct cur; discriminate|].
  rewrite <- E. rewrite strip_ends_solid by reflexivity.
  eauto.
Qed.

End SplitterClaims.

(** ** Aliases *)

Section AliasClaims.

Import Alias.

Context {File : Type}.
Variable write_file : gmap (list N) (list N) -> File -> File.
Variable read_file : File -> contents.

Lemma reserved_alias : str "alias" ∈ [str "alias"; str "unalias"].
Proof. apply list_elem_of_here. Qed.

Lemma reserved_unalias : str "unalias" ∈ [str "alias"; str "unalias"].
Proof. apply list_elem_of_further, list_elem_of_here. Qed.

Lemma add_alias_keeps (r name command : pystr) (self : manager) :
  r ∈ [str "alias"; str "unalias"] ->
  aliases (snd (add_alias write_file name command self)) !! r
  = aliases self !! r.
Proof.
  intros Hr. unfold add_alias.
  destruct (decide (name ∈ [str "alias"; str "unalias"])) as [Hin|Hout];
    [reflexivity|].
  simpl. apply lookup_insert_ne. intros ->. now apply Hout.
Qed.

Lemma apply_keeps_absent (r : pystr) (o : operation) (self : manager) :
  r ∈ [str "alias"; str "unalias"] ->
  aliases self !! r = None ->
  aliases (apply write_file self o) !! r = None.
Proof.
  intros Hr Hnone. destruct o as [name command|name|]; simpl.
  - now rewrite add_alias_keeps.
  - unfold remove_alias. destruct (aliases self !! name); [|exact Hnone].
    simpl. rewrite lookup_delete. case_decide; [reflexivity|exact Hnone].
  - apply lookup_empty.
Qed.

Lemma run_keeps_absent (r : pystr) (ops : list operation) :
  r ∈ [str "alias"; str "unalias"] ->
  forall self, aliases self !! r = None ->
               aliases (run write_file ops self) !! r = None.
Proof.
  intros Hr. unfold run.
  induction ops as [|o ops IH]; intros self H; simpl; [exact H|].
  apply IH. now apply apply_keeps_absent.
Qed.

Lemma run_keeps_or_drops (r : pystr) (ops : list operation) :
  r ∈ [str "alias"; str "unalias"] ->
  forall self,
    aliases (run write_file ops self) !! r = None
    \/ aliases (run write_file ops self) !! r = aliases self !! r.
Proof.
  intros Hr. unfold run.
  induction ops as [|o ops IH]; intros self; simpl; [now right|].
  assert (Hstep : aliases (apply write_file self o) !! r = None
                  \/ aliases (apply write_file self o) !! r
                     = aliases self !! r).
  { destruct o as [name command|name|]; simpl.
    - right. now apply add_alias_keeps.
    - unfold remove_alias. destruct (aliases self !! name); [|now right].
      simpl. rewrite lookup_delete. case_decide; [now left | now right].
    - left. apply lookup_empty. }
  destruct Hstep as [Hnone|Hsame].
  - left. now apply (run_keeps_absent r ops Hr).
  - destruct (IH (apply write_file self o)) as [H|H];
      [now left | right; now rewrite H].
Qed.

Lemma init_table (file : File) :
  aliases (init read_file file)
  = match read_file file with
    | Object table => table
    | Absent | Unreadable => ∅
    end.
Proof.
  unfold init, _load_aliases. cbn [aliases_file].
  now destruct (read_file file).
Qed.

(** C7 (amended).  Whatever the table holds, [add_alias] with the name
    [alias] or [unalias] returns [False] and leaves the manager (the table
    and the alias file) as it was; [add_alias] never changes what a
    reserved name is bound to; and no sequence of additions, removals and
    clearings applied to the empty table makes a reserved name a key.
    Applied to any table, such a sequence leaves a reserved name bound as
    it was or not bound at all.  The table [__init__] starts from is the
    object of the alias file, as it is; so after any sequence of
    operations a reserved name is a key only if the file bound it, and
    then to what the file bound it to. *)
Theorem reserved_names_rejected :
  (forall command (self : manager),
     add_alias write_file (str "alias") command self = (false, self)
     /\ add_alias write_file (str "unalias") command self = (false, self))
  /\ (forall name command (self : manager),
        aliases (snd (add_alias write_file name command self))
          !! str "alias" = aliases self !! str "alias"
        /\ aliases (snd (add_alias write_file name command self))
             !! str "unalias" = aliases self !! str "unalias")
  /\ (forall ops file,
        aliases (run write_file ops (Manager ∅ file)) !! str "alias" = None
        /\ aliases (run write_file ops (Manager ∅ file)) !! str "unalias"
           = None)
  /\ (forall ops (self : manager),
        (aliases (run write_file ops self) !! str "alias" = None
         \/ aliases (run write_file ops self) !! str "alias"
            = aliases self !! str "alias")
        /\ (aliases (run write_file ops self) !! str "unalias" = None
            \/ aliases (run write_file ops self) !! str "unalias"
               = aliases self !! str "unalias"))
  /\ (forall file,
        aliases (init read_file file)
        = match read_file file with
          | Object table => table
          | Absent | Unreadable => ∅
          end)
  /\ (forall ops file r command,
        r ∈ [str "alias"; str "unalias"] ->
        aliases (run write_file ops (init read_file file)) !! r
        = Some command ->
        exists table, read_file file = Object table
                      /\ table !! r = Some command).
Proof.
  split; [|split; [|split; [|split; [|split]]]].
  - intros command self. unfold add_alias. split.
    + destruct (decide (str "alias" ∈ [str "alias"; str "unalias"]))
        as [_|H]; [reflexivity|]. destruct (H reserved_alias).
    + destruct (decide (str "unalias" ∈ [str "alias"; str "unalias"]))
        as [_|H]; [reflexivity|]. destruct (H reserved_unalias).
  - intros; split; apply add_alias_keeps;
      [apply reserved_alias | apply reserved_unalias].
  - intros ops file; split; apply run_keeps_absent;
      try apply lookup_empty; [apply reserved_alias | apply reserved_unalias].
  - intros ops self; split; apply run_keeps_or_drops;
      [apply reserved_alias | apply reserved_unalias].
  - apply init_table.
  - intros ops file r command Hr Hkey.
    destruct (run_keeps_or_drops r ops Hr (init read_file file)) as [H|H];
      rewrite H in Hkey; [discriminate Hkey|].
    rewrite init_table in Hkey.
    destruct (read_file file) as [| |table];
      [now rewrite lookup_empty in Hkey | now rewrite lookup_empty in Hkey|].
    now exists table.
Qed.

(** C4 (amended).  One call of [expand_alias] makes one hop: when the first
    word is a key, the result is the replacement, a space and the
    remainder, and the replacement's own first word is not looked up; so
    with [ll -> ls -la] the line [ll /tmp] becomes [ls -la /tmp] whatever
    else is registered.  A second call on that result is an ordinary
    call: it leaves the text as it is when [ls] is not a key, and
    replaces [ls] when it is. *)
Theorem expansion_is_one_hop_per_call (self : @manager File) :
  aliases self !! str "ll" = Some (str "ls -la") ->
  expand_alias self (str "ll /tmp") = str "ls -la /tmp"
  /\ (aliases self !! str "ls" = None ->
      expand_alias self (expand_alias self (str "ll /tmp"))
      = str "ls -la /tmp")
  /\ (forall again, aliases self !! str "ls" = Some again ->
      expand_alias self (expand_alias self (str "ll /tmp"))
      = again ++ str " -la /tmp").
Proof.
  intros Hll.
  assert (H1 : expand_alias self (str "ll /tmp") = str "ls -la /tmp").
  { unfold expand_alias.
    change (split_max1 (strip (str "ll /tmp")))
      with [str "ll"; str "/tmp"].
    cbv beta iota. now rewrite Hll. }
  split; [exact H1|]. rewrite H1.
  unfold expand_alias.
  change (split_max1 (strip (str "ls -la /tmp")))
    with [str "ls"; str "-la /tmp"].
  cbv beta iota.
  split.
  - intros Hls. now rewrite Hls.
  - intros again Hls. now rewrite Hls.
Qed.

End AliasClaims.

(** ** The classifier *)

Module ClassifierFacts.

Import Classifier.

(** Induction over an argument list that follows the loop of [parse_args]:
    it advances by one token or by two. *)
Lemma args_ind (Q : list pystr -> Prop) :
  Q [] ->
  (forall a, Q [a]) ->
  (forall a b l, Q l -> Q (b :: l) -> Q (a :: b :: l)) ->
  forall l, Q l.
Proof.
  intros Hnil Hone Htwo l.
  enough (H : Q l /\ forall a, Q (a :: l)) by apply H.
  induction l as [|b l [IH1 IH2]]; split; auto.
Qed.

Section WithPlatform.

Variable os : platform.

(** The loop body on the last token. *)
Lemma parse_loop_one (a : pystr) (r : classified) :
  parse_loop os [a] r
  = if startswith a [slash] then add_command (drop 1 a, None) r
    else if startswith a [dash] then set_option a OptTrue r
    else classify_path os a r.
Proof.
  cbn [parse_loop].
  destruct (startswith a [slash]); [reflexivity|].
  now destruct (startswith a [dash]).
Qed.

(** The loop body on a token that has a successor. *)
Lemma parse_loop_two (a b : pystr) (l : list pystr) (r : classified) :
  parse_loop os (a :: b :: l) r
  = if startswith a [slash] then
      if negb (is_flag b)
      then parse_loop os l (add_command (drop 1 a, Some b) r)
      else parse_loop os (b :: l) (add_command (drop 1 a, None) r)
    else if startswith a [dash] then
      if negb (is_flag b)
      then parse_loop os l (set_option a (OptStr b) r)
      else parse_loop os (b :: l) (set_option a OptTrue r)
    else parse_loop os (b :: l) (classify_path os a r).
Proof. reflexivity. Qed.

(** Any property of the result that the three kinds of update preserve
    holds after the loop. *)
Lemma parse_loop_preserves (P : classified -> Prop) :
  (forall c r, P r -> P (add_command c r)) ->
  (forall k v r, P r -> P (set_option k v r)) ->
  (forall a r, P r -> P (classify_path os a r)) ->
  forall args r, P r -> P (parse_loop os args r).
Proof.
  intros Hc Ho Hp args.
  induction args as [|a|a b l IHl IHbl] using args_ind; intros r Hr.
  - exact Hr.
  - rewrite parse_loop_one.
    destruct (startswith a [slash]); [auto|].
    destruct (startswith a [dash]); auto.
  - rewrite parse_loop_two.
    destruct (startswith a [slash]).
    { destruct (negb (is_flag b)); [apply IHl | apply IHbl]; auto. }
    destruct (startswith a [dash]).
    { destruct (negb (is_flag b)); [apply IHl | apply IHbl]; auto. }
    apply IHbl; auto.
Qed.

Lemma missing_not_executable (p : pystr) :
  stat os p = Missing -> _is_executable os p = false.
Proof. intros H. unfold _is_executable, exists_. now rewrite H. Qed.

Lemma classify_missing (tok : pystr) (r : classified) :
  stat os tok = Missing -> endswith tok (str ".zetas") = false ->
  classify_path os tok r = add_file tok r.
Proof.
  intros Hm Hz. unfold classify_path, isdir, isfile.
  rewrite Hz, Hm, (missing_not_executable _ Hm). reflexivity.
Qed.

Lemma executables_exist (args : list pystr) :
  Forall (fun p => stat os p <> Missing)
         (executables (parse_args os args)).
Proof.
  unfold parse_args. apply parse_loop_preserves; try (intros; assumption).
  - intros a r Hr. unfold classify_path.
    assert (He : _is_executable os a = true -> stat os a <> Missing).
    { unfold _is_executable, exists_. intros H Hm. rewrite Hm in H.
      discriminate H. }
    repeat match goal with
           | |- context [if ?b then _ else _] =>
               let E := fresh in destruct b eqn:E; simpl
           end; try exact Hr;
      try (apply Forall_app; split; [exact Hr|]; constructor; auto);
      unfold isdir in *;
      match goal with
      | H : match stat os a with _ => _ end = true |- _ =>
          intros Hm; rewrite Hm in H; discriminate H
      end.
  - constructor.
Qed.

(** The names filed under [commands] are the [/] tokens, in argv order. *)
Lemma command_names_of_loop (args : list pystr) : forall r,
  List.map fst (commands (parse_loop os args r))
  = List.map fst (commands r)
    ++ List.map (drop 1) (List.filter (fun a => startswith a [slash]) args).
Proof.
  assert (Hpath : forall a r, commands (classify_path os a r) = commands r).
  { intros a r. unfold classify_path.
    repeat match goal with
           | |- context [if ?b then _ else _] => destruct b
           end; reflexivity. }
  assert (Hval : forall b, negb (is_flag b) = true ->
                           startswith b [slash] = false).
  { intros b H. apply negb_true_iff in H. unfold is_flag in H.
    now apply orb_false_iff in H as [_ H]. }
  induction args as [|a|a b l IHl IHbl] using args_ind; intros r.
  - simpl. now rewrite app_nil_r.
  - rewrite parse_loop_one. cbn [List.filter].
    destruct (startswith a [slash]) eqn:Es.
    + simpl. now rewrite List.map_app.
    + destruct (startswith a [dash]); simpl;
        rewrite ?Hpath; now rewrite app_nil_r.
  - rewrite parse_loop_two.
    cbn [List.filter].
    destruct (startswith a [slash]) eqn:Es.
    + destruct (negb (is_flag b)) eqn:Ef.
      * rewrite IHl, (Hval b Ef). simpl.
        rewrite List.map_app. simpl. now rewrite <- app_assoc.
      * rewrite IHbl. simpl.
        rewrite List.map_app. simpl. now rewrite <- app_assoc.
    + destruct (startswith a [dash]) eqn:Ed.
      * destruct (negb (is_flag b)) eqn:Ef.
        -- rewrite IHl, (Hval b Ef). reflexivity.
        -- rewrite IHbl. reflexivity.
      * rewrite IHbl, Hpath. reflexivity.
Qed.

(** A bucket of paths grows only at its end, and only by the token being
    classified; so it lists tokens of argv in argv order. *)
Lemma bucket_in_order (proj : classified -> list pystr) :
  (forall c r, proj (add_command c r) = proj r) ->
  (forall k v r, proj (set_option k v r) = proj r) ->
  (forall a r, proj (classify_path os a r) = proj r
               \/ proj (classify_path os a r) = proj r ++ [a]) ->
  forall args r, exists l,
    proj (parse_loop os args r) = proj r ++ l /\ sublist l args.
Proof.
  intros Hc Ho Hp args.
  induction args as [|a|a b l IHl IHbl] using args_ind; intros r.
  - exists []. split; [now rewrite app_nil_r | constructor].
  - rewrite parse_loop_one.
    destruct (startswith a [slash]);
      [exists []; rewrite Hc, app_nil_r; split; [easy|apply sublist_nil_l]|].
    destruct (startswith a [dash]);
      [exists []; rewrite Ho, app_nil_r; split; [easy|apply sublist_nil_l]|].
    destruct (Hp a r) as [E|E]; rewrite E.
    + exists []. rewrite app_nil_r. split; [easy|apply sublist_nil_l].
    + exists [a]. split; [easy|]. now apply sublist_skip.
  - rewrite parse_loop_two.
    destruct (startswith a [slash]).
    { destruct (negb (is_flag b)).
      - destruct (IHl (add_command (drop 1 a, Some b) r)) as (l0 & E & S).
        exists l0. rewrite E, Hc. split; [easy|]. now do 2 apply sublist_cons.
      - destruct (IHbl (add_command (drop 1 a, None) r)) as (l0 & E & S).
        exists l0. rewrite E, Hc. split; [easy|]. now apply sublist_cons. }
    destruct (startswith a [dash]).
    { destruct (negb (is_flag b)).
      - destruct (IHl (set_option a (OptStr b) r)) as (l0 & E & S).
        exists l0. rewrite E, Ho. split; [easy|]. now do 2 apply sublist_cons.
      - destruct (IHbl (set_option a OptTrue r)) as (l0 & E & S).
        exists l0. rewrite E, Ho. split; [easy|]. now apply sublist_cons. }
    destruct (IHbl (classify_path os a r)) as (l0 & E & S).
    destruct (Hp a r) as [E'|E']; rewrite E, E'.
    + exists l0. split; [easy|]. now apply sublist_cons.
    + exists (a :: l0). rewrite <- app_assoc. split; [easy|].
      now apply sublist_skip.
Qed.

Lemma buckets_in_argv_order (args : list pystr) :
  sublist (scripts (parse_args os args)) args
  /\ sublist (files (parse_args os args)) args
  /\ sublist (directories (parse_args os args)) args
  /\ sublist (executables (parse_args os args)) args.
Proof.
  unfold parse_args.
  repeat split;
    match goal with
    | |- sublist (?proj _) _ =>
        destruct (bucket_in_order proj) with (args := args)
                                             (r := empty_result)
          as (l & E & S);
        [reflexivity | reflexivity | | rewrite E; exact S]
    end;
    intros a r; unfold classify_path;
    repeat match goal with
           | |- context [if ?b then _ else _] => destruct b
           end; simpl; auto.
Qed.

(** A token that starts with [-] or [/] is never taken as a value: the
    loop reaches it as the current token, with whatever came before it
    already filed. *)
Lemma parse_loop_at_flag (pre : list pystr) (k : pystr) (l : list pystr) :
  is_flag k = true ->
  forall r, parse_loop os (pre ++ k :: l) r
            = parse_loop os (k :: l) (parse_loop os pre r).
Proof.
  intros Hk.
  induction pre as [|a|a b l0 IHl IHbl] using args_ind; intros r.
  - reflexivity.
  - cbn [app]. rewrite parse_loop_two, parse_loop_one, Hk. cbn [negb].
    destruct (startswith a [slash]); [reflexivity|].
    now destruct (startswith a [dash]).
  - change ((a :: b :: l0) ++ k :: l) with (a :: b :: (l0 ++ k :: l)).
    rewrite !parse_loop_two.
    change (b :: l0 ++ k :: l) with ((b :: l0) ++ k :: l).
    destruct (startswith a [slash]).
    { destruct (negb (is_flag b)); [apply IHl | apply IHbl]. }
    destruct (startswith a [dash]).
    { destruct (negb (is_flag b)); [apply IHl | apply IHbl]. }
    apply IHbl.
Qed.

(** A bucket to which every update appends grows by the same items
    whatever it held before. *)
Lemma loop_appends {A : Type} (proj : classified -> list A) :
  (forall c, exists d, forall r, proj (add_command c r) = proj r ++ d) ->
  (forall k v, exists d, forall r, proj (set_option k v r) = proj r ++ d) ->
  (forall a, exists d, forall r,
       proj (classify_path os a r) = proj r ++ d) ->
  forall args, exists d, forall r,
      proj (parse_loop os args r) = proj r ++ d.
Proof.
  intros Hc Ho Hp args.
  induction args as [|a|a b l [dl Hl] [dbl Hbl]] using args_ind.
  - exists []. intros r. now rewrite app_nil_r.
  - destruct (Hc (drop 1 a, None)) as [d1 H1].
    destruct (Ho a OptTrue) as [d2 H2].
    destruct (Hp a) as [d3 H3].
    exists (if startswith a [slash] then d1
            else if startswith a [dash] then d2 else d3).
    intros r. rewrite parse_loop_one.
    destruct (startswith a [slash]); [apply H1|].
    destruct (startswith a [dash]); [apply H2 | apply H3].
  - destruct (Hc (drop 1 a, Some b)) as [d1 H1].
    destruct (Hc (drop 1 a, None)) as [d2 H2].
    destruct (Ho a (OptStr b)) as [d3 H3].
    destruct (Ho a OptTrue) as [d4 H4].
    destruct (Hp a) as [d5 H5].
    exists (if startswith a [slash] then
              if negb (is_flag b) then d1 ++ dl else d2 ++ dbl
            else if startswith a [dash] then
              if negb (is_flag b) then d3 ++ dl else d4 ++ dbl
            else d5 ++ dbl).
    intros r. rewrite parse_loop_two.
    destruct (startswith a [slash]).
    { destruct (negb (is_flag b));
        [rewrite Hl, H1 | rewrite Hbl, H2]; now rewrite app_assoc. }
    destruct (startswith a [dash]).
    { destruct (negb (is_flag b));
        [rewrite Hl, H3 | rewrite Hbl, H4]; now rewrite app_assoc. }
    rewrite Hbl, H5. now rewrite app_assoc.
Qed.

Lemma loop_from_empty {A : Type} (proj : classified -> list A) :
  (forall c, exists d, forall r, proj (add_command c r) = proj r ++ d) ->
  (forall k v, exists d, forall r, proj (set_option k v r) = proj r ++ d) ->
  (forall a, exists d, forall r,
       proj (classify_path os a r) = proj r ++ d) ->
  proj empty_result = [] ->
  forall args r,
    proj (parse_loop os args r) = proj r ++ proj (parse_args os args).
Proof.
  intros Hc Ho Hp He args r.
  destruct (loop_appends proj Hc Ho Hp args) as [d Hd].
  unfold parse_args. now rewrite (Hd r), (Hd empty_result), He.
Qed.

Ltac appends :=
  intros; unfold classify_path;
  repeat match goal with
         | |- context [if ?b then _ else _] => destruct b
         end;
  first [ exists []; intros; simpl; now rewrite app_nil_r
        | eexists; intros; simpl; reflexivity ].

Lemma commands_from_empty (args : list pystr) (r : classified) :
  commands (parse_loop os args r)
  = commands r ++ commands (parse_args os args).
Proof. apply (loop_from_empty commands); try reflexivity; appends. Qed.

Lemma paths_from_empty (args : list pystr) (r : classified) :
  Forall (fun proj : classified -> list pystr =>
            proj (parse_loop os args r)
            = proj r ++ proj (parse_args os args))
         path_buckets.
Proof.
  repeat constructor;
    match goal with
    | |- ?proj _ = _ => apply (loop_from_empty proj)
    end; try reflexivity; appends.
Qed.

(** A flag token adds nothing to the buckets of paths. *)
Lemma paths_skip_update (f : classified -> classified) (r : classified) :
  (forall x, scripts (f x) = scripts x) ->
  (forall x, files (f x) = files x) ->
  (forall x, directories (f x) = directories x) ->
  (forall x, executables (f x) = executables x) ->
  forall rest,
    Forall (fun proj : classified -> list pystr =>
              proj (parse_loop os rest (f r))
              = proj r ++ proj (parse_args os rest))
           path_buckets.
Proof.
  intros H1 H2 H3 H4 rest.
  pose proof (paths_from_empty rest (f r)) as H.
  unfold path_buckets in *.
  inversion H as [|? ? Ha H']; subst. inversion H' as [|? ? Hb H'']; subst.
  inversion H'' as [|? ? Hc H''']; subst.
  inversion H''' as [|? ? Hd _]; subst.
  rewrite H1 in Ha. rewrite H2 in Hb. rewrite H3 in Hc. rewrite H4 in Hd.
  repeat constructor; assumption.
Qed.

Lemma dict_set_holds {V : Type} (k : pystr) (v : V) (d : list (pystr * V)) :
  (k, v) ∈ dict_set k v d.
Proof.
  induction d as [|[k' v'] d IH]; simpl; [apply list_elem_of_here|].
  destruct (decide (k' = k)) as [->|_];
    [apply list_elem_of_here | now apply list_elem_of_further].
Qed.

Lemma dict_set_keeps_other {V : Type} (k : pystr) (v : V) (k' : pystr)
  (v' : V) (d : list (pystr * V)) :
  k' <> k -> (k', v') ∈ d -> (k', v') ∈ dict_set k v d.
Proof.
  intros Hne. induction d as [|[k2 v2] d IH]; intros Hin;
    [now apply not_elem_of_nil in Hin|].
  simpl. apply elem_of_cons in Hin as [E|Hin].
  - inversion E; subst k2 v2.
    destruct (decide (k' = k)); [contradiction|apply list_elem_of_here].
  - destruct (decide (k2 = k)); apply list_elem_of_further; auto.
Qed.

(** An option keeps its value as long as its key does not come again. *)
Lemma option_survives (k : pystr) (x : option_value) (args : list pystr) :
  k ∉ args ->
  forall r, (k, x) ∈ options r -> (k, x) ∈ options (parse_loop os args r).
Proof.
  assert (Hpath : forall a r, options (classify_path os a r) = options r).
  { intros a r. unfold classify_path.
    repeat match goal with
           | |- context [if ?b then _ else _] => destruct b
           end; reflexivity. }
  induction args as [|a|a b l IHl IHbl] using args_ind; intros Hk r Hin.
  - exact Hin.
  - apply not_elem_of_cons in Hk as [Hne _].
    rewrite parse_loop_one.
    destruct (startswith a [slash]); [exact Hin|].
    destruct (startswith a [dash]); [|now rewrite Hpath].
    now apply dict_set_keeps_other.
  - apply not_elem_of_cons in Hk as [Hne Hk].
    pose proof Hk as Hk'. apply not_elem_of_cons in Hk' as [_ Hl].
    rewrite parse_loop_two.
    destruct (startswith a [slash]).
    { destruct (negb (is_flag b)); [now apply IHl | now apply IHbl]. }
    destruct (startswith a [dash]).
    { destruct (negb (is_flag b)); [apply IHl | apply IHbl]; auto;
        now apply dict_set_keeps_other. }
    apply IHbl; auto. now rewrite Hpath.
Qed.

End WithPlatform.

End ClassifierFacts.

Section ClassifierClaims.

Import Classifier ClassifierFacts.

(** C8.  A token [/cmd] is filed as a flag-command; it takes the token
    after it as its value exactly when there is one and it starts with
    neither [-] nor [/]; otherwise its value is [None] and the loop goes
    on at the following token.  A token starting with [-] follows the same
    rule, with [True] when it takes no value.  Over a whole argv the names
    of the flag-commands are the [/] tokens, in order.

    This holds wherever the token stands in argv, because a token that
    starts with [-] or [/] is never itself taken as a value.  So for
    [pre ++ [/cmd; v] ++ rest] with [v] starting with neither [-] nor [/],
    the flag-commands are those of [pre], then [(cmd, v)], then those of
    [rest], and each bucket of paths holds what [pre] and [rest] give:
    [v] is filed nowhere else.  Where no value follows, the entry is
    [(cmd, None)] and what follows is classified on its own.  Likewise
    [-opt] followed by [v] leaves the option [-opt] with the value [v], and
    with [True] where no value follows, provided the same key does not come
    again later in argv. *)
Theorem flag_lookahead (os : platform) :
  (forall cmd result,
     parse_loop os [slash :: cmd] result = add_command (cmd, None) result)
  /\ (forall cmd next rest result,
        parse_loop os ((slash :: cmd) :: next :: rest) result
        = if startswith next [dash] || startswith next [slash]
          then parse_loop os (next :: rest) (add_command (cmd, None) result)
          else parse_loop os rest (add_command (cmd, Some next) result))
  /\ (forall opt result,
        parse_loop os [dash :: opt] result
        = set_option (dash :: opt) OptTrue result)
  /\ (forall opt next rest result,
        parse_loop os ((dash :: opt) :: next :: rest) result
        = if startswith next [dash] || startswith next [slash]
          then parse_loop os (next :: rest)
                 (set_option (dash :: opt) OptTrue result)
          else parse_loop os rest
                 (set_option (dash :: opt) (OptStr next) result))
  /\ (forall args,
        List.map fst (commands (parse_args os args))
        = List.map (drop 1)
            (List.filter (fun a => startswith a [slash]) args))
  /\ (forall pre k rest result,
        is_flag k = true ->
        parse_loop os (pre ++ k :: rest) result
        = parse_loop os (k :: rest) (parse_loop os pre result))
  /\ (forall pre cmd v rest,
        is_flag v = false ->
        commands (parse_args os (pre ++ (slash :: cmd) :: v :: rest))
        = commands (parse_args os pre)
          ++ (cmd, Some v) :: commands (parse_args os rest)
        /\ Forall (fun proj : classified -> list pystr =>
                     proj (parse_args os
                             (pre ++ (slash :: cmd) :: v :: rest))
                     = proj (parse_args os pre)
                       ++ proj (parse_args os rest))
                  path_buckets)
  /\ (forall pre cmd rest,
        match rest with [] => true | next :: _ => is_flag next end = true ->
        commands (parse_args os (pre ++ (slash :: cmd) :: rest))
        = commands (parse_args os pre)
          ++ (cmd, None) :: commands (parse_args os rest))
  /\ (forall pre opt v rest,
        is_flag v = false -> (dash :: opt) ∉ rest ->
        (dash :: opt, OptStr v)
          ∈ options (parse_args os (pre ++ (dash :: opt) :: v :: rest))
        /\ Forall (fun proj : classified -> list pystr =>
                     proj (parse_args os
                             (pre ++ (dash :: opt) :: v :: rest))
                     = proj (parse_args os pre)
                       ++ proj (parse_args os rest))
                  path_buckets)
  /\ (forall pre opt rest,
        match rest with [] => true | next :: _ => is_flag next end = true ->
        (dash :: opt) ∉ rest ->
        (dash :: opt, OptTrue)
          ∈ options (parse_args os (pre ++ (dash :: opt) :: rest))).
Proof.
  assert (Hslash : forall cmd, is_flag (slash :: cmd) = true).
  { intros cmd. unfold is_flag.
    change (startswith (slash :: cmd) [slash]) with true.
    apply orb_true_r. }
  assert (Hdash : forall opt, is_flag (dash :: opt) = true).
  { intros opt. reflexivity. }
  assert (Hbare : forall k rest r f,
             (forall r', parse_loop os [k] r' = f r') ->
             (forall n l r', is_flag n = true ->
                             parse_loop os (k :: n :: l) r'
                             = parse_loop os (n :: l) (f r')) ->
             match rest with [] => true | next :: _ => is_flag next end
             = true ->
             parse_loop os (k :: rest) r = parse_loop os rest (f r)).
  { intros k rest r f H1 H2 Hrest. destruct rest as [|n l];
      [apply H1 | now apply H2]. }
  split; [|split; [|split; [|split; [|split; [|split; [|split;
    [|split; [|split]]]]]]]].
  - reflexivity.
  - intros cmd next rest result.
    cbn [parse_loop]. change (startswith (slash :: cmd) [slash]) with true.
    cbv iota. unfold is_flag.
    now destruct (startswith next [dash] || startswith next [slash]).
  - reflexivity.
  - intros opt next rest result.
    cbn [parse_loop]. change (startswith (dash :: opt) [slash]) with false.
    change (startswith (dash :: opt) [dash]) with true.
    cbv iota. unfold is_flag.
    now destruct (startswith next [dash] || startswith next [slash]).
  - intros args. unfold parse_args.
    now rewrite command_names_of_loop.
  - intros pre k rest result Hk. now apply parse_loop_at_flag.
  - intros pre cmd v rest Hv.
    assert (E : parse_args os (pre ++ (slash :: cmd) :: v :: rest)
                = parse_loop os rest
                    (add_command (cmd, Some v) (parse_args os pre))).
    { unfold parse_args.
      rewrite (parse_loop_at_flag os pre _ _ (Hslash cmd)).
      rewrite parse_loop_two.
      change (startswith (slash :: cmd) [slash]) with true.
      now rewrite Hv. }
    rewrite E. split.
    + rewrite commands_from_empty. cbn [commands add_command].
      now rewrite <- app_assoc.
    + apply (paths_skip_update os (add_command (cmd, Some v)));
        reflexivity.
  - intros pre cmd rest Hrest. unfold parse_args at 1.
    rewrite (parse_loop_at_flag os pre _ _ (Hslash cmd)).
    rewrite (Hbare (slash :: cmd) rest _ (add_command (cmd, None)));
      [| reflexivity | | exact Hrest].
    + fold (parse_args os pre). rewrite commands_from_empty.
      cbn [commands add_command]. now rewrite <- app_assoc.
    + intros n l r' Hn. rewrite parse_loop_two.
      change (startswith (slash :: cmd) [slash]) with true.
      now rewrite Hn.
  - intros pre opt v rest Hv Hfresh.
    assert (E : parse_args os (pre ++ (dash :: opt) :: v :: rest)
                = parse_loop os rest
                    (set_option (dash :: opt) (OptStr v)
                       (parse_args os pre))).
    { unfold parse_args.
      rewrite (parse_loop_at_flag os pre _ _ (Hdash opt)).
      rewrite parse_loop_two.
      change (startswith (dash :: opt) [slash]) with false.
      change (startswith (dash :: opt) [dash]) with true.
      now rewrite Hv. }
    rewrite E. split.
    + apply option_survives; [exact Hfresh|].
      cbn [options set_option]. apply dict_set_holds.
    + apply (paths_skip_update os (set_option (dash :: opt) (OptStr v)));
        reflexivity.
  - intros pre opt rest Hrest Hfresh. unfold parse_args.
    rewrite (parse_loop_at_flag os pre _ _ (Hdash opt)).
    rewrite (Hbare (dash :: opt) rest _ (set_option (dash :: opt) OptTrue));
      [| reflexivity | | exact Hrest].
    + apply option_survives; [exact Hfresh|].
      cbn [options set_option]. apply dict_set_holds.
    + intros n l r' Hn. rewrite parse_loop_two.
      change (startswith (dash :: opt) [slash]) with false.
      change (startswith (dash :: opt) [dash]) with true.
      now rewrite Hn.
Qed.

(** C3 (the code departs from the claim).  The last branch of the loop,
    for a token that is neither a directory nor a file, asks
    [_is_executable] as the branch for files does; but [_is_executable]
    answers [False] for every path that does not exist, before it looks at
    the extension.  So a token that is no existing path, starts with
    neither [/] nor [-] and does not end in [.zetas] goes to the files
    bucket whatever its extension, and nothing in the executables bucket
    is a missing path. *)
Theorem missing_token_is_filed_as_file (os : platform) :
  (forall args,
     Forall (fun p => stat os p <> Missing)
            (executables (parse_args os args)))
  /\ (forall tok,
        stat os tok = Missing ->
        startswith tok [slash] = false -> startswith tok [dash] = false ->
        endswith tok (str ".zetas") = false ->
        _is_executable os tok = false
        /\ (forall rest result,
              parse_loop os (tok :: rest) result
              = parse_loop os rest (add_file tok result))
        /\ parse_args os [tok] = Classified [] [tok] [] [] [] []).
Proof.
  split; [apply executables_exist|].
  intros tok Hm Hs Hd Hz.
  assert (Hstep : forall rest result,
             parse_loop os (tok :: rest) result
             = parse_loop os rest (add_file tok result)).
  { intros rest result. destruct rest; cbn [parse_loop];
      rewrite Hs, Hd, (classify_missing os tok result Hm Hz); reflexivity. }
  split; [now apply missing_not_executable|]. split; [exact Hstep|].
  unfold parse_args. now rewrite Hstep.
Qed.

End ClassifierClaims.

(** ** The executor *)

Module ExecutorFacts.

Import Classifier ClassifierFacts Executor.

Section WithHandlers.

Context {World : Type}.
Variable builtin : pystr -> option pystr -> World -> outcome * World.
Variable print_unknown : pystr -> World -> World.
Variable _execute_script :
  pystr -> list (pystr * option_value) -> World -> outcome * World.
Variable _process_file :
  pystr -> list (pystr * option_value) -> World -> outcome * World.
Variable _process_directory :
  pystr -> list (pystr * option_value) -> World -> outcome * World.
Variable _execute_program :
  pystr -> list (pystr * option_value) -> World -> outcome * World.
Variable config_set : pystr -> config_value -> World -> World.
Variable repr : pystr -> pystr.

Local Abbreviation perform :=
  (perform builtin print_unknown _execute_script _process_file
           _process_directory _execute_program config_set repr).
Local Abbreviation run_items :=
  (run_items builtin print_unknown _execute_script _process_file
             _process_directory _execute_program repr).
Local Abbreviation apply_options := (apply_options config_set).
Local Abbreviation execute_in_order :=
  (execute_in_order builtin print_unknown _execute_script _process_file
                    _process_directory _execute_program config_set repr).
Local Abbreviation runs :=
  (runs builtin print_unknown _execute_script _process_file
        _process_directory _execute_program config_set repr).
Local Abbreviation never_escapes :=
  (never_escapes builtin print_unknown _execute_script _process_file
                 _process_directory _execute_program).

Lemma perform_app ds1 : forall ds2 parsed rs w,
  perform (ds1 ++ ds2) parsed rs w
  = match perform ds1 parsed rs w with
    | (Some rs', w') => perform ds2 parsed rs' w'
    | (None, w') => (None, w')
    end.
Proof.
  induction ds1 as [|d ds1 IH]; intros ds2 parsed rs w; simpl;
    [reflexivity|].
  destruct (perform_one _ _ _ _ _ _ _ _ d parsed rs w) as [[rs'|] w'];
    [apply IH | reflexivity].
Qed.

Lemma run_items_perform c items : forall parsed rs w,
  run_items c items parsed rs w
  = perform (List.map (Handle c) items) parsed rs w.
Proof.
  induction items as [|it items IH]; intros parsed rs w; simpl;
    [reflexivity|].
  destruct (try_item _ _ _ _ _ _ _ c it parsed rs w) as [[rs'|] w'];
    [apply IH | reflexivity].
Qed.

Lemma apply_options_perform opts : forall parsed rs w,
  perform (option_effects opts) parsed rs w
  = let '(rs', w') := apply_options opts rs w in (Some rs', w').
Proof.
  induction opts as [|[option v] opts IH]; intros parsed rs w;
    [reflexivity|].
  unfold option_effects. cbn [flat_map fst Executor.apply_options].
  fold (option_effects opts). unfold option_effect.
  destruct (decide (option = str "-console")).
  { cbn [app Executor.perform perform_one]. apply IH. }
  destruct (decide (option = str "-bash")).
  { cbn [app Executor.perform perform_one]. apply IH. }
  cbn [app]. apply IH.
Qed.

Lemma run_sequence_perform seq : forall parsed rs w,
  run_sequence builtin print_unknown _execute_script _process_file
               _process_directory _execute_program repr seq parsed rs w
  = perform (flat_map (fun c => List.map (Handle c) (get parsed c)) seq)
            parsed rs w.
Proof.
  induction seq as [|c seq IH]; intros parsed rs w;
    cbn [run_sequence flat_map]; [reflexivity|].
  rewrite perform_app, run_items_perform.
  destruct (perform (List.map (Handle c) (get parsed c)) parsed rs w)
    as [[rs'|] w']; [apply IH | reflexivity].
Qed.

(** The nested loops and the option loop, as one pass over [plan]. *)
Lemma execute_in_order_plan parsed w :
  execute_in_order parsed w = perform (plan parsed) parsed [] w.
Proof.
  unfold Executor.execute_in_order, plan.
  rewrite perform_app, run_sequence_perform.
  replace (flat_map (fun c => List.map (Handle c) (get parsed c))
                    execution_sequence)
    with (calls parsed)
    by (unfold calls; cbn [flat_map execution_sequence get];
        now rewrite app_nil_r).
  destruct (perform (calls parsed) parsed [] w) as [[rs|] w'];
    [|reflexivity].
  now rewrite apply_options_perform.
Qed.

(** When nothing escapes, a pass over any list of dispatches reaches its
    end and leaves one entry per dispatch. *)
Lemma perform_runs parsed :
  never_escapes ->
  forall ds rs0 w, exists rs w',
    runs (options parsed) ds w rs w'
    /\ perform ds parsed rs0 w = (Some (rs0 ++ rs), w')
    /\ length rs = length ds.
Proof.
  intros Hsafe ds.
  induction ds as [|d ds IH]; intros rs0 w.
  - exists [], w. rewrite app_nil_r. repeat split. constructor.
  - destruct d as [c it| |]; cbn [Executor.perform perform_one].
    + unfold try_item.
      destruct (call _ _ _ _ _ _ c it (options parsed) w)
        as [[success|reason|] w1] eqn:E.
      * destruct (IH (rs0 ++ [(label repr c it, success)]) w1)
          as (rs & w' & Hr & Hp & Hl).
        exists ((label repr c it, success) :: rs), w'.
        rewrite Hp, <- app_assoc. simpl. repeat split; auto.
        eapply runs_returned; eauto.
      * destruct (IH (rs0 ++ [(error_label repr c it reason, PyFalse)]) w1)
          as (rs & w' & Hr & Hp & Hl).
        exists ((error_label repr c it reason, PyFalse) :: rs), w'.
        rewrite Hp, <- app_assoc. simpl. repeat split; auto.
        eapply runs_raised; eauto.
      * exfalso. apply (Hsafe c it (options parsed) w). now rewrite E.
    + destruct (IH (rs0 ++ [(txt_console, PyTrue)])
                  (config_set (str "interface_mode")
                              (CfgStr (str "console")) w))
        as (rs & w' & Hr & Hp & Hl).
      exists ((txt_console, PyTrue) :: rs), w'.
      rewrite Hp, <- app_assoc. simpl. repeat split; auto.
      now apply runs_console.
    + destruct (IH (rs0 ++ [(txt_bash, PyTrue)])
                  (config_set (str "enable_bash_syntax") (CfgBool true) w))
        as (rs & w' & Hr & Hp & Hl).
      exists ((txt_bash, PyTrue) :: rs), w'.
      rewrite Hp, <- app_assoc. simpl. repeat split; auto.
      now apply runs_bash.
Qed.

End WithHandlers.

(** With the logging handlers a pass never stops, and the log grows by the
    entry of each dispatch in turn. *)
Lemma perform_logged ds : forall parsed rs w, exists rs',
  perform Sample.log_builtin Sample.log_unknown
    (Sample.log_path Scripts (Raises (str "denied")))
    (Sample.log_path Files (Returns PyFalse))
    (Sample.log_path Directories (Returns PyFalse))
    (Sample.log_path Executables (Returns PyTrue))
    Sample.log_config Sample.quote_repr ds parsed rs w
  = (Some rs', w ++ List.map Sample.event_of ds).
Proof.
  induction ds as [|d ds IH]; intros parsed rs w.
  - exists rs. simpl. now rewrite app_nil_r.
  - cbn [perform List.map].
    assert (H : exists rs1,
      perform_one Sample.log_builtin Sample.log_unknown
        (Sample.log_path Scripts (Raises (str "denied")))
        (Sample.log_path Files (Returns PyFalse))
        (Sample.log_path Directories (Returns PyFalse))
        (Sample.log_path Executables (Returns PyTrue))
        Sample.log_config Sample.quote_repr d parsed rs w
      = (Some rs1, w ++ [Sample.event_of d])).
    { destruct d as [c it| |]; [|eexists; reflexivity..].
      destruct c; try (eexists; reflexivity).
      cbn [perform_one]. unfold try_item, call, _execute_command.
      destruct (decide (fst it ∈ command_names)); eexists; reflexivity. }
    destruct H as [rs1 ->].
    destruct (IH parsed rs1 (w ++ [Sample.event_of d])) as [rs' ->].
    exists rs'. now rewrite <- app_assoc.
Qed.

Lemma logged_run_order parsed w :
  snd (Sample.logged_run parsed w)
  = w ++ List.map Sample.event_of (plan parsed).
Proof.
  unfold Sample.logged_run. rewrite execute_in_order_plan.
  now destruct (perform_logged (plan parsed) parsed [] w) as [rs' ->].
Qed.

End ExecutorFacts.

Section ExecutorClaims.

Import Classifier ClassifierFacts Executor ExecutorFacts.

Context {World : Type}.
Variable builtin : pystr -> option pystr -> World -> outcome * World.
Variable print_unknown : pystr -> World -> World.
Variable _execute_script :
  pystr -> list (pystr * option_value) -> World -> outcome * World.
Variable _process_file :
  pystr -> list (pystr * option_value) -> World -> outcome * World.
Variable _process_directory :
  pystr -> list (pystr * option_value) -> World -> outcome * World.
Variable _execute_program :
  pystr -> list (pystr * option_value) -> World -> outcome * World.
Variable config_set : pystr -> config_value -> World -> World.
Variable repr : pystr -> pystr.

(** C6.  Whatever the handlers do, a run of [execute_in_order] is one pass,
    left to right, over the flag-commands, then the scripts, the files, the
    directories and the executables, and only then the recognised options;
    handlers that write down each call leave a log in exactly that order;
    and each bucket lists its tokens in the order argv had them. *)
Theorem dispatch_follows_category_order :
  (forall parsed w,
     execute_in_order builtin print_unknown _execute_script _process_file
       _process_directory _execute_program config_set repr parsed w
     = perform builtin print_unknown _execute_script _process_file
         _process_directory _execute_program config_set repr
         (plan parsed) parsed [] w)
  /\ (forall parsed,
        plan parsed
        = List.map (Handle Commands) (commands parsed)
          ++ List.map (Handle Scripts) (scripts parsed)
          ++ List.map (Handle Files) (files parsed)
          ++ List.map (Handle Directories) (directories parsed)
          ++ List.map (Handle Executables) (executables parsed)
          ++ option_effects (options parsed))
  /\ (forall parsed w,
        snd (Sample.logged_run parsed w)
        = w ++ List.map Sample.event_of (plan parsed))
  /\ (forall os args,
        List.map fst (commands (parse_args os args))
        = List.map (drop 1)
            (List.filter (fun a => startswith a [slash]) args)
        /\ sublist (scripts (parse_args os args)) args
        /\ sublist (files (parse_args os args)) args
        /\ sublist (directories (parse_args os args)) args
        /\ sublist (executables (parse_args os args)) args).
Proof.
  split; [|split; [|split]].
  - intros. apply execute_in_order_plan.
  - intros. unfold plan, calls. now rewrite <- !app_assoc.
  - apply logged_run_order.
  - intros os args. split; [|apply buckets_in_argv_order].
    unfold parse_args. now rewrite command_names_of_loop.
Qed.

(** C5 (amended).  When no handler call ends in an exception outside
    [Exception], the run carries out every dispatch of the plan, each in
    the world the one before it left, whatever the earlier ones returned
    or raised.  An item whose handler returned is logged under its plain
    label with the returned value (also when that value is [False]); an
    item whose handler raised is logged as failed under a label that ends
    with the reason.  The log has one entry per item of the five buckets
    and one more per recognised option. *)
Theorem failures_are_logged_and_isolated (parsed : classified) (w : World) :
  never_escapes builtin print_unknown _execute_script _process_file
                _process_directory _execute_program ->
  exists rs w',
    runs builtin print_unknown _execute_script _process_file
         _process_directory _execute_program config_set repr
         (options parsed) (plan parsed) w rs w'
    /\ execute_in_order builtin print_unknown _execute_script _process_file
         _process_directory _execute_program config_set repr parsed w
       = (Some rs, w')
    /\ length rs
       = (length (commands parsed) + length (scripts parsed)
          + length (files parsed) + length (directories parsed)
          + length (executables parsed)
          + length (option_effects (options parsed)))%nat.
Proof.
  intros Hsafe.
  destruct (perform_runs builtin print_unknown _execute_script _process_file
              _process_directory _execute_program config_set repr
              parsed Hsafe (plan parsed) [] w) as (rs & w' & Hr & Hp & Hl).
  exists rs, w'. split; [exact Hr|]. split.
  - rewrite execute_in_order_plan. exact Hp.
  - rewrite Hl. unfold plan, calls.
    rewrite !length_app, !length_map. cbv [item]. lia.
Qed.

End ExecutorClaims.

(** ** The claims on concrete inputs *)

Section OnSamples.

Import Classifier Executor Sample.

(** C3 on a platform where nothing exists: [nosuch.exe] has an extension
    of the allow-set and still goes to the files bucket. *)
Lemma missing_exe_goes_to_files :
  stat nothing_exists (str "nosuch.exe") = Missing
  /\ lower nothing_exists (splitext_ext nothing_exists (str "nosuch.exe"))
     = str ".exe"
  /\ executables (parse_args nothing_exists [str "nosuch.exe"]) = []
  /\ files (parse_args nothing_exists [str "nosuch.exe"])
     = [str "nosuch.exe"].
Proof. repeat split. Qed.

Lemma missing_token_is_filed_as_file_witness :
  stat nothing_exists (str "nosuchdir") = Missing
  /\ parse_args nothing_exists [str "nosuchdir"]
     = Classified [] [str "nosuchdir"] [] [] [] [].
Proof.
  split; [reflexivity|].
  exact (proj2 (proj2 (proj2 (missing_token_is_filed_as_file nothing_exists)
                         (str "nosuchdir") eq_refl eq_refl eq_refl eq_refl))).
Defined.

Lemma flag_lookahead_witness :
  is_flag (str "1+1") = false
  /\ is_flag (str "out") = false
  /\ (str "-o" ∉ [str "-v"; str "/help"])
  /\ commands
       (parse_args nothing_exists
          [str "a.txt"; str "/p"; str "1+1"; str "-o"; str "out";
           str "-v"; str "/help"])
     = [(str "p", Some (str "1+1")); (str "help", None)]
  /\ (str "-o", OptStr (str "out"))
       ∈ options
           (parse_args nothing_exists
              [str "a.txt"; str "/p"; str "1+1"; str "-o"; str "out";
               str "-v"; str "/help"])
  /\ files
       (parse_args nothing_exists
          [str "a.txt"; str "/p"; str "1+1"; str "-o"; str "out";
           str "-v"; str "/help"])
     = [str "a.txt"].
Proof.
  assert (Hfresh : str "-o" ∉ [str "-v"; str "/help"]).
  { intros H. apply list_elem_of_In in H. simpl in H.
    destruct H as [H|[H|[]]]; discriminate H. }
  split; [reflexivity|]. split; [reflexivity|]. split; [exact Hfresh|].
  pose proof (proj1 (proj2 (proj2 (proj2 (proj2 (proj2 (proj2
                (flag_lookahead nothing_exists)))))))
                [str "a.txt"] (str "p") (str "1+1")
                [str "-o"; str "out"; str "-v"; str "/help"] eq_refl)
    as [Hcommands Hpaths].
  pose proof (proj1 (proj2 (proj2 (proj2 (proj2 (proj2 (proj2 (proj2 (proj2
                (flag_lookahead nothing_exists)))))))))
                [str "a.txt"; str "/p"; str "1+1"] (str "o") (str "out")
                [str "-v"; str "/help"] eq_refl Hfresh)
    as [Hoption _].
  split; [exact Hcommands|]. split; [exact Hoption|].
  inversion Hpaths as [|? ? _ Hrest]. inversion Hrest as [|? ? Hfiles _].
  exact Hfiles.
Defined.

(** C7 as stated fails: the reserved names are keys when the alias file
    holds them.  With a file that binds [alias], the table starts with
    that key; the rejected [add_alias] leaves it there, and the line
    [alias ll=x] is rewritten by expansion. *)
Lemma loaded_reserved_name_is_a_key :
  let self := Alias.init Sample2.read_disk Sample2.edited in
  Alias.aliases self !! str "alias" = Some (str "echo")
  /\ Alias.add_alias Sample2.write_disk (str "alias") (str "ls") self
     = (false, self)
  /\ Alias.aliases
       (snd (Alias.add_alias Sample2.write_disk (str "alias") (str "ls")
               self)) !! str "alias"
     = Some (str "echo")
  /\ Alias.expand_alias self (str "alias ll=x") = str "echo ll=x"
  /\ ~ (forall self : @Alias.manager (option (gmap (list N) (list N))),
          Alias.aliases self !! str "alias" = None).
Proof.
  intros self.
  assert (H : Alias.aliases self !! str "alias" = Some (str "echo"))
    by (vm_compute; reflexivity).
  split; [exact H|].
  split; [vm_compute; reflexivity|].
  split; [vm_compute; reflexivity|].
  split; [vm_compute; reflexivity|].
  intros Hall. rewrite (Hall self) in H. discriminate H.
Qed.

Lemma reserved_names_rejected_witness :
  str "alias" ∈ [str "alias"; str "unalias"]
  /\ Alias.aliases
       (Alias.run Sample2.write_disk [Alias.Add (str "ll") (str "ls -la")]
          (Alias.init Sample2.read_disk Sample2.edited)) !! str "alias"
     = Some (str "echo")
  /\ exists table,
       Sample2.read_disk Sample2.edited = Alias.Object table
       /\ table !! str "alias" = Some (str "echo").
Proof.
  assert (Hr : str "alias" ∈ [str "alias"; str "unalias"])
    by apply list_elem_of_here.
  assert (H : Alias.aliases
                (Alias.run Sample2.write_disk
                   [Alias.Add (str "ll") (str "ls -la")]
                   (Alias.init Sample2.read_disk Sample2.edited))
                !! str "alias" = Some (str "echo"))
    by (vm_compute; reflexivity).
  split; [exact Hr|]. split; [exact H|].
  exact (proj2 (proj2 (proj2 (proj2 (proj2
           (reserved_names_rejected Sample2.write_disk Sample2.read_disk)))))
           [Alias.Add (str "ll") (str "ls -la")] Sample2.edited
           (str "alias") (str "echo") Hr H).
Defined.

(** C4 as stated fails: with [ls] registered too, expanding the result of
    the first expansion once more rewrites it again. *)
Lemma second_expansion_expands_again :
  Alias.aliases two_aliases !! str "ll" = Some (str "ls -la")
  /\ Alias.expand_alias two_aliases (str "ll /tmp") = str "ls -la /tmp"
  /\ Alias.expand_alias two_aliases
       (Alias.expand_alias two_aliases (str "ll /tmp"))
     = str "dir -la /tmp"
  /\ Alias.expand_alias two_aliases
       (Alias.expand_alias two_aliases (str "ll /tmp"))
     <> Alias.expand_alias two_aliases (str "ll /tmp").
Proof.
  split; [vm_compute; reflexivity|].
  split; [vm_compute; reflexivity|].
  split; [vm_compute; reflexivity|].
  vm_compute. discriminate.
Qed.

Lemma expansion_is_one_hop_per_call_witness :
  Alias.aliases two_aliases !! str "ll" = Some (str "ls -la")
  /\ Alias.expand_alias two_aliases (str "ll /tmp") = str "ls -la /tmp".
Proof.
  assert (H : Alias.aliases two_aliases !! str "ll" = Some (str "ls -la"))
    by (vm_compute; reflexivity).
  split; [exact H|].
  exact (proj1 (expansion_is_one_hop_per_call two_aliases H)).
Defined.

(** C5 as stated fails: [/nosuch -console -v] has one item in the five
    buckets and three classified tokens, and the log of results has two
    entries; the failed entry carries the plain label of the command, with
    no reason. *)
Lemma signalled_failure_has_plain_label :
  let parsed :=
    parse_args nothing_exists [str "/nosuch"; str "-console"; str "-v"] in
  commands parsed = [(str "nosuch", None)]
  /\ List.map fst (options parsed) = [str "-console"; str "-v"]
  /\ (scripts parsed, files parsed, directories parsed, executables parsed)
     = ([], [], [], [])
  /\ logged_run parsed []
     = (Some [(txt_command ++ str "nosuch ", PyFalse);
              (txt_console, PyTrue)],
        [Ran Commands (str "nosuch"); Configured (str "interface_mode")]).
Proof. repeat split. Qed.

Lemma logging_never_escapes :
  never_escapes log_builtin log_unknown
    (log_path Scripts (Raises (str "denied")))
    (log_path Files (Returns PyFalse))
    (log_path Directories (Returns PyFalse))
    (log_path Executables (Returns PyTrue)).
Proof.
  intros c it opts w. destruct c; cbn; try discriminate.
  unfold _execute_command. destruct (decide _); discriminate.
Qed.

Lemma failures_are_logged_and_isolated_witness :
  let parsed :=
    parse_args nothing_exists
      [str "notes.txt"; str "a.zetas"; str "-bash"; str "/p"; str "1+1";
       str "b.zetas"; str "/help"] in
  never_escapes log_builtin log_unknown
    (log_path Scripts (Raises (str "denied")))
    (log_path Files (Returns PyFalse))
    (log_path Directories (Returns PyFalse))
    (log_path Executables (Returns PyTrue))
  /\ exists rs w', logged_run parsed [] = (Some rs, w')
                   /\ length rs = 6%nat.
Proof.
  intros parsed. split; [exact logging_never_escapes|].
  destruct (failures_are_logged_and_isolated
              log_builtin log_unknown
              (log_path Scripts (Raises (str "denied")))
              (log_path Files (Returns PyFalse))
              (log_path Directories (Returns PyFalse))
              (log_path Executables (Returns PyTrue))
              log_config quote_repr parsed [] logging_never_escapes)
    as (rs & w' & _ & Hrun & Hlen).
  exists rs, w'. split; [exact Hrun | exact Hlen].
Defined.

End OnSamples.

(** * Further properties of the code *)

(** ** Trimming and splitting into words *)

Module TextFacts.

Import Text.

Lemma lstrip_length (s : pystr) : (length (lstrip s) <= length s)%nat.
Proof.
  induction s as [|c s IH]; simpl; [lia|].
  destruct (isspace c); simpl; lia.
Qed.

Lemma rstrip_length (s : pystr) : (length (rstrip s) <= length s)%nat.
Proof.
  unfold rstrip. rewrite length_rev.
  pose proof (lstrip_length (rev s)) as H. now rewrite length_rev in H.
Qed.

Lemma lstrip_solid (c : char) (s : pystr) :
  isspace c = false -> lstrip (c :: s) = c :: s.
Proof. intros H. simpl. now rewrite H. Qed.

Lemma rstrip_solid_head (c : char) (s : pystr) :
  isspace c = false -> rstrip (c :: s) = c :: rstrip s.
Proof. intros H. exact (rstrip_app_solid [] s c H). Qed.

(** What is left of a string after [lstrip] is empty or starts with a
    character that is no whitespace. *)
Lemma lstrip_head (s : pystr) :
  lstrip s = [] \/ exists c r, lstrip s = c :: r /\ isspace c = false.
Proof.
  induction s as [|c s IH]; simpl; [now left|].
  destruct (isspace c) eqn:E; [exact IH|]. right. eauto.
Qed.

Lemma lstrip_idem (s : pystr) : lstrip (lstrip s) = lstrip s.
Proof.
  destruct (lstrip_head s) as [->|(c & r & -> & H)]; [reflexivity|].
  now apply lstrip_solid.
Qed.

Lemma rstrip_idem (s : pystr) : rstrip (rstrip s) = rstrip s.
Proof.
  unfold rstrip. now rewrite rev_involutive, lstrip_idem.
Qed.

Lemma strip_idem (s : pystr) : strip (strip s) = strip s.
Proof.
  unfold strip.
  destruct (lstrip_head s) as [->|(c & r & -> & H)]; [reflexivity|].
  rewrite (rstrip_solid_head c r H), (lstrip_solid _ _ H).
  rewrite <- (rstrip_solid_head c r H). apply rstrip_idem.
Qed.

(** A trimmed, non-empty string starts with a character that is no
    whitespace, and trimming it on the right changes nothing. *)
Lemma trimmed_head (r : pystr) :
  strip r = r -> r <> [] ->
  exists c r', r = c :: r' /\ isspace c = false /\ rstrip r = r.
Proof.
  intros Hs Hne. destruct r as [|c r']; [congruence|].
  destruct (isspace c) eqn:E.
  - exfalso. unfold strip in Hs. simpl in Hs. rewrite E in Hs.
    pose proof (rstrip_length (lstrip r')) as H1.
    pose proof (lstrip_length r') as H2.
    rewrite Hs in H1. simpl in H1. lia.
  - exists c, r'. repeat split; auto.
    unfold strip in Hs. now rewrite (lstrip_solid _ _ E) in Hs.
Qed.

Lemma is_word_head (w : pystr) :
  is_word w = true ->
  exists c w', w = c :: w' /\ isspace c = false
               /\ forallb (fun c => negb (isspace c)) w' = true.
Proof.
  destruct w as [|c w']; [discriminate|]. simpl.
  intros H. apply andb_true_iff in H as [Hc Hw].
  apply negb_true_iff in Hc. eauto.
Qed.

(** [word] cuts a run of solid characters off what follows it. *)
Lemma word_run (w r : pystr) :
  forallb (fun c => negb (isspace c)) w = true ->
  (r = [] \/ exists c r', r = c :: r' /\ isspace c = true) ->
  word (w ++ r) = (w, r).
Proof.
  intros Hw Hr. induction w as [|c w IH]; simpl.
  - destruct Hr as [->|(c & r' & -> & Hc)]; [reflexivity|].
    simpl. now rewrite Hc.
  - simpl in Hw. apply andb_true_iff in Hw as [Hc Hw].
    apply negb_true_iff in Hc. rewrite Hc, (IH Hw). reflexivity.
Qed.


Lemma rstrip_all_solid (w : pystr) :
  forallb (fun c => negb (isspace c)) w = true -> rstrip w = w.
Proof.
  induction w as [|c w IH]; [reflexivity|]. simpl. intros H.
  apply andb_true_iff in H as [Hc Hw]. apply negb_true_iff in Hc.
  now rewrite (rstrip_solid_head _ _ Hc), IH.
Qed.

Lemma strip_word (w : pystr) : is_word w = true -> strip w = w.
Proof.
  intros H. destruct (is_word_head w H) as (c & w' & -> & Hc & Hw).
  unfold strip. rewrite (lstrip_solid _ _ Hc).
  apply rstrip_all_solid. simpl. now rewrite Hc.
Qed.

(** The parts of a line that is a single word. *)
Lemma split_max1_word (w : pystr) :
  is_word w = true -> split_max1 (strip w) = [w].
Proof.
  intros H. rewrite (strip_word w H).
  destruct (is_word_head w H) as (c & w' & E & Hc & Hw).
  unfold split_max1. rewrite E, (lstrip_solid _ _ Hc), <- E.
  assert (Hall : forallb (fun c => negb (isspace c)) w = true).
  { rewrite E. simpl. now rewrite Hc. }
  pose proof (word_run w [] Hall (or_introl eq_refl)) as Hword.
  rewrite app_nil_r in Hword. rewrite E in *. now rewrite Hword.
Qed.

(** The parts of a word, one space and a trimmed remainder. *)
Lemma split_max1_word_rest (w rest : pystr) :
  is_word w = true -> rest <> [] -> strip rest = rest ->
  split_max1 (strip (w ++ [space] ++ rest)) = [w; rest].
Proof.
  intros H Hne Hs.
  destruct (is_word_head w H) as (c & w' & E & Hc & Hw).
  destruct (trimmed_head rest Hs Hne) as (d & r' & Er & Hd & Hrs).
  assert (Hall : forallb (fun c => negb (isspace c)) w = true).
  { rewrite E. simpl. now rewrite Hc. }
  assert (Hstrip : strip (w ++ [space] ++ rest) = w ++ [space] ++ rest).
  { unfold strip. rewrite E. cbn [app]. rewrite (lstrip_solid _ _ Hc).
    rewrite (rstrip_solid_head _ _ Hc). f_equal.
    rewrite Er.
    replace (w' ++ space :: d :: r') with ((w' ++ [space]) ++ d :: r')
      by now rewrite <- app_assoc.
    rewrite (rstrip_app_solid _ _ _ Hd).
    rewrite <- (rstrip_solid_head _ _ Hd), <- Er, Hrs.
    now rewrite <- app_assoc. }
  rewrite Hstrip. unfold split_max1.
  rewrite E. cbn [app]. rewrite (lstrip_solid _ _ Hc).
  change (c :: w' ++ space :: rest) with ((c :: w') ++ space :: rest).
  rewrite <- E.
  rewrite (word_run w (space :: rest) Hall).
  2:{ right. exists space, rest. split; reflexivity. }
  cbn [lstrip]. change (isspace space) with true. cbv iota.
  rewrite Er, (lstrip_solid _ _ Hd). reflexivity.
Qed.


End TextFacts.

(** ** More on the splitter *)

Section SplitterExtras.

Import Text TextFacts Splitter SplitterFacts.

(** Outside quotes a separator ends the segment when it has characters. *)
Lemma step_separator cmds cur rest :
  step (State cmds cur false None false) plus rest
  = match cur with
    | [] => State cmds [] false None false
    | _ :: _ => State (cmds ++ [strip cur]) [] false None false
    end.
Proof. unfold step. simpl. now destruct cur. Qed.

Lemma split_on_cons (sep : char) (s : pystr) :
  exists p ps, split_on sep s = p :: ps.
Proof.
  induction s as [|c s (p & ps & IH)]; simpl; [eauto|].
  destruct (c =? sep); [eauto|]. rewrite IH. eauto.
Qed.

(** The scan of a line without quotes and backslashes, from any state
    outside quotes: the pieces between the separators, the first one
    continuing the current segment. *)
Lemma scan_unquoted s : forall cmds cur,
  forallb (fun c => negb (is_quote c || (c =? backslash))) s = true ->
  finish (scan (State cmds cur false None false) s)
  = cmds
    ++ List.map strip
         (List.filter (fun p => negb (Text.eqb p []))
            (match split_on plus s with
             | p :: ps => (cur ++ p) :: ps
             | [] => [cur]
             end)).
Proof.
  induction s as [|c s IH]; intros cmds cur Hs.
  - simpl. rewrite app_nil_r. unfold finish. simpl.
    destruct cur; simpl; [now rewrite app_nil_r | reflexivity].
  - simpl in Hs. apply andb_true_iff in Hs as [Hc Hs].
    cbn [scan split_on].
    destruct (c =? plus) eqn:Ep.
    + apply N.eqb_eq in Ep. subst c. rewrite step_separator.
      destruct (split_on_cons plus s) as (p & ps & Esp).
      rewrite app_nil_r.
      destruct cur as [|d cur].
      * rewrite (IH _ _ Hs), Esp. reflexivity.
      * rewrite (IH _ _ Hs), Esp. simpl. now rewrite <- app_assoc.
    + assert (Hplain : is_plain c = true).
      { unfold is_plain. rewrite Ep. simpl.
        apply negb_true_iff in Hc. now rewrite Hc. }
      rewrite (step_plain (State cmds cur false None false) c s
                 eq_refl Hplain).
      cbn [commands current_command in_quotes quote_char].
      rewrite (IH _ _ Hs).
      destruct (split_on_cons plus s) as (p & ps & ->).
      now rewrite <- app_assoc.
Qed.

(** X1.  A line without quotes and backslashes splits exactly at its
    separators: the sub-commands are the pieces of [line.split('+')] that
    have at least one character, each trimmed, in order. *)
Theorem unquoted_line_splits_at_every_separator (s : pystr) :
  forallb (fun c => negb (is_quote c || (c =? backslash))) s = true ->
  Splitter.parse_commands s
  = List.map strip
      (List.filter (fun p => negb (Text.eqb p [])) (split_on plus s)).
Proof.
  intros Hs. unfold parse_commands, initial.
  rewrite (scan_unquoted s [] [] Hs).
  now destruct (split_on_cons plus s) as (p & ps & ->).
Qed.

Lemma unquoted_line_splits_at_every_separator_witness :
  forallb (fun c => negb (is_quote c || (c =? backslash)))
          (str "cd /tmp + +ls -la+") = true
  /\ Splitter.parse_commands (str "cd /tmp + +ls -la+")
     = [str "cd /tmp"; []; str "ls -la"].
Proof.
  split; [reflexivity|].
  exact (unquoted_line_splits_at_every_separator
           (str "cd /tmp + +ls -la+") eq_refl).
Defined.

(** X2.  A quote that is never closed is kept: after plain text, an opening
    quote [q] followed by anything without [q] and without a backslash
    gives one sub-command, the whole line trimmed at both ends, with the
    quote in it and no split at the separators after the quote. *)
Theorem unterminated_quote_swallows_the_rest (q : char) (pre tail : pystr) :
  is_quote q = true ->
  forallb is_plain pre = true -> forallb (inside q) tail = true ->
  Splitter.parse_commands (pre ++ q :: tail)
  = [lstrip pre ++ q :: rstrip tail].
Proof.
  intros Hq Hpre Htail.
  assert (Hsp : isspace q = false).
  { unfold is_quote in Hq.
    apply orb_true_iff in Hq as [H|H]; apply N.eqb_eq in H; now subst. }
  assert (Hnb : (q =? backslash) = false).
  { unfold is_quote in Hq.
    apply orb_true_iff in Hq as [H|H]; apply N.eqb_eq in H; now subst. }
  unfold parse_commands.
  rewrite scan_app by now apply plain_not_backslash.
  rewrite (scan_plain pre initial eq_refl Hpre).
  cbn [commands current_command in_quotes quote_char initial app scan].
  assert (Hopen : step (State [] pre false None false) q tail
                  = State [] (pre ++ [q]) true (Some q) false).
  { unfold step. simpl. rewrite Hnb, Hq. reflexivity. }
  rewrite Hopen.
  rewrite (scan_inside tail (State [] (pre ++ [q]) true (Some q) false) q
             eq_refl eq_refl eq_refl Htail).
  unfold finish. cbn [commands current_command app].
  destruct ((pre ++ [q]) ++ tail) eqn:E; [destruct pre; discriminate|].
  rewrite <- E. f_equal. unfold strip.
  rewrite <- app_assoc. cbn [app].
  rewrite (lstrip_app_solid _ _ _ Hsp).
  now rewrite (rstrip_app_solid _ _ _ Hsp).
Qed.

Lemma unterminated_quote_swallows_the_rest_witness :
  is_quote squote = true
  /\ forallb is_plain (str " echo ") = true
  /\ forallb (inside squote) (str "a + b ") = true
  /\ Splitter.parse_commands (str " echo 'a + b ") = [str "echo 'a + b"].
Proof.
  do 3 (split; [reflexivity|]).
  exact (unterminated_quote_swallows_the_rest squote (str " echo ")
           (str "a + b ") eq_refl eq_refl eq_refl).
Defined.

(** X3.  No sub-command carries whitespace at either end: trimming any
    element of the result again changes nothing. *)
Theorem sub_commands_are_trimmed (s : pystr) :
  Forall (fun cmd => strip cmd = cmd) (Splitter.parse_commands s).
Proof.
  assert (Htrim : forall l, Forall trimmed_nonempty l ->
                            Forall (fun cmd => strip cmd = cmd) l).
  { intros l H. induction H as [|x l (raw & _ & ->) _ IH]; constructor;
      [apply strip_idem | exact IH]. }
  unfold parse_commands, finish.
  pose proof (scan_emits s initial ltac:(constructor)) as H.
  destruct (current_command (scan initial s)) eqn:E; [now apply Htrim|].
  apply Forall_app; split; [now apply Htrim|].
  constructor; [apply strip_idem | constructor].
Qed.

End SplitterExtras.

(** ** More on aliases *)

Section AliasExtras.

Import Text TextFacts Alias.

Context {File : Type}.
Variable write_file : gmap (list N) (list N) -> File -> File.

Lemma add_alias_accepts (name command : pystr) (self : @manager File) :
  name ∉ [str "alias"; str "unalias"] ->
  add_alias write_file name command self
  = (true, Manager (<[name := command]> (aliases self))
                   (write_file (<[name := command]> (aliases self))
                               (aliases_file self))).
Proof.
  intros H. unfold add_alias.
  destruct (decide (name ∈ [str "alias"; str "unalias"])); [contradiction|].
  reflexivity.
Qed.

(** X4.  Registering and using an alias: after [add_alias name command]
    for a name that is one word and not reserved, the line [name] expands
    to [command], and [name], a space and a trimmed remainder expand to
    [command], a space and that remainder. *)
Theorem added_alias_expands (name command rest : pystr)
  (self : @manager File) :
  is_word name = true ->
  name ∉ [str "alias"; str "unalias"] ->
  rest <> [] -> strip rest = rest ->
  let self' := snd (add_alias write_file name command self) in
  fst (add_alias write_file name command self) = true
  /\ expand_alias self' name = command
  /\ expand_alias self' (name ++ [space] ++ rest)
     = command ++ [space] ++ rest.
Proof.
  intros Hw Hres Hne Hs. rewrite (add_alias_accepts _ _ _ Hres).
  cbn [fst snd]. split; [reflexivity|]. unfold expand_alias. split.
  - rewrite (split_max1_word name Hw). cbn [aliases].
    now rewrite lookup_insert_eq.
  - rewrite (split_max1_word_rest name rest Hw Hne Hs). cbn [aliases].
    now rewrite lookup_insert_eq.
Qed.


(** X6.  Removing an alias: for a name that is not a key nothing changes
    and the answer is [False]; for a key the answer is [True], the name is
    no key afterwards, every other name keeps its binding, and a line that
    starts with the removed name is no longer expanded. *)
Theorem removed_alias_is_gone (name : pystr) (self : @manager File) :
  (aliases self !! name = None -> remove_alias write_file name self
                                  = (false, self))
  /\ (forall command, aliases self !! name = Some command ->
        fst (remove_alias write_file name self) = true)
  /\ aliases (snd (remove_alias write_file name self)) !! name = None
  /\ (forall other, other <> name ->
        aliases (snd (remove_alias write_file name self)) !! other
        = aliases self !! other)
  /\ (forall line more,
        split_max1 (strip line) = name :: more ->
        expand_alias (snd (remove_alias write_file name self)) line = line).
Proof.
  assert (Hgone : aliases (snd (remove_alias write_file name self)) !! name
                  = None).
  { unfold remove_alias. destruct (aliases self !! name) eqn:E; simpl;
      [apply lookup_delete_eq | exact E]. }
  split; [|split; [|split; [|split]]].
  - intros H. unfold remove_alias. now rewrite H.
  - intros command H. unfold remove_alias. now rewrite H.
  - exact Hgone.
  - intros other Hne. unfold remove_alias.
    destruct (aliases self !! name); [|reflexivity].
    simpl. now apply lookup_delete_ne.
  - intros line more E. unfold expand_alias. rewrite E. simpl.
    now rewrite Hgone.
Qed.

(** X7.  Adding a name that was no key and removing it again gives back the
    table as it was. *)
Theorem add_then_remove_restores (name command : pystr)
  (self : @manager File) :
  name ∉ [str "alias"; str "unalias"] ->
  aliases self !! name = None ->
  aliases (snd (remove_alias write_file name
                  (snd (add_alias write_file name command self))))
  = aliases self.
Proof.
  intros Hres Hfresh. rewrite (add_alias_accepts _ _ _ Hres). simpl.
  unfold remove_alias. simpl. rewrite lookup_insert_eq. simpl.
  rewrite delete_insert_eq. now apply delete_id.
Qed.

(** X8.  The alias commands cannot be aliased away: in any table built
    from the empty one by additions, removals and clearings, a line whose
    first word is [alias] or [unalias] is not rewritten by expansion. *)
Theorem alias_commands_are_never_rewritten (ops : list operation)
  (file : File) (line first : pystr) (more : list pystr) :
  split_max1 (strip line) = first :: more ->
  first ∈ [str "alias"; str "unalias"] ->
  expand_alias (run write_file ops (Manager ∅ file)) line = line.
Proof.
  intros E Hres. unfold expand_alias. rewrite E. simpl.
  rewrite (run_keeps_absent write_file first ops Hres); [reflexivity|].
  apply lookup_empty.
Qed.

End AliasExtras.

(** ** More on the classifier *)

Module ClassifierMoreFacts.

Import Classifier ClassifierFacts Tally.

Section WithPlatform.

Variable os : platform.

(** The loop only ever makes five kinds of update, each with a token of
    the stated shape; a property they all preserve holds of the result. *)
Lemma parse_loop_invariant (P : classified -> Prop) :
  (forall cmd r, P r -> P (add_command (cmd, None) r)) ->
  (forall cmd v r, is_flag v = false ->
                   P r -> P (add_command (cmd, Some v) r)) ->
  (forall k r, startswith k [dash] = true ->
               P r -> P (set_option k OptTrue r)) ->
  (forall k v r, startswith k [dash] = true -> is_flag v = false ->
                 P r -> P (set_option k (OptStr v) r)) ->
  (forall a r, is_flag a = false -> P r -> P (classify_path os a r)) ->
  forall args r, P r -> P (parse_loop os args r).
Proof.
  intros Hn Hv Ht Hs Hp args.
  assert (Hflag : forall a, startswith a [slash] = false ->
                            startswith a [dash] = false ->
                            is_flag a = false).
  { intros a H1 H2. unfold is_flag. now rewrite H1, H2. }
  induction args as [|a|a b l IHl IHbl] using args_ind; intros r Hr.
  - exact Hr.
  - rewrite parse_loop_one.
    destruct (startswith a [slash]) eqn:Es; [auto|].
    destruct (startswith a [dash]) eqn:Ed; auto.
  - rewrite parse_loop_two.
    destruct (startswith a [slash]) eqn:Es.
    { destruct (negb (is_flag b)) eqn:Ef; [apply IHl | apply IHbl]; auto.
      apply negb_true_iff in Ef. auto. }
    destruct (startswith a [dash]) eqn:Ed.
    { destruct (negb (is_flag b)) eqn:Ef; [apply IHl | apply IHbl]; auto.
      apply negb_true_iff in Ef. auto. }
    apply IHbl; auto.
Qed.

Lemma classify_script (tok : pystr) (r : classified) :
  endswith tok (str ".zetas") = true ->
  classify_path os tok r = add_script tok r.
Proof. intros H. unfold classify_path. now rewrite H. Qed.

(** What [classify_path] does, by the bucket it picks. *)
Lemma classify_path_cases (a : pystr) (r : classified) :
  (endswith a (str ".zetas") = true /\ classify_path os a r = add_script a r)
  \/ (endswith a (str ".zetas") = false /\ isdir os a = true
      /\ classify_path os a r = add_directory a r)
  \/ (endswith a (str ".zetas") = false /\ isdir os a = false
      /\ _is_executable os a = true
      /\ classify_path os a r = add_executable a r)
  \/ (endswith a (str ".zetas") = false /\ isdir os a = false
      /\ _is_executable os a = false
      /\ classify_path os a r = add_file a r).
Proof.
  unfold classify_path.
  destruct (endswith a (str ".zetas")); [now left|]. right.
  destruct (isdir os a); [now left|]. right.
  destruct (isfile os a), (_is_executable os a); auto.
Qed.

Lemma dict_set_keys {V : Type} (k : pystr) (v : V) (d : list (pystr * V)) :
  ((k ∈ List.map fst d)
   /\ List.map fst (dict_set k v d) = List.map fst d)
  \/ ((k ∉ List.map fst d)
      /\ List.map fst (dict_set k v d) = List.map fst d ++ [k]).
Proof.
  induction d as [|[k' v'] d IH]; simpl.
  - right. split; [apply not_elem_of_nil | reflexivity].
  - destruct (decide (k' = k)) as [->|Hne]; simpl.
    + left. split; [apply list_elem_of_here | reflexivity].
    + destruct IH as [[Hin E]|[Hout E]]; rewrite E.
      * left. split; [now apply list_elem_of_further | reflexivity].
      * right. split; [|reflexivity].
        intros H. apply elem_of_cons in H as [H|H]; auto.
Qed.

Lemma dict_set_values {V : Type} (P : V -> Prop) (k : pystr) (v : V)
  (d : list (pystr * V)) :
  P v -> Forall (fun kv => P (snd kv)) d ->
  Forall (fun kv => P (snd kv)) (dict_set k v d).
Proof.
  intros Hv H. induction H as [|[k' v'] d Hx Hd IH]; simpl.
  - constructor; [exact Hv | constructor].
  - destruct (decide (k' = k)); constructor; auto.
Qed.


End WithPlatform.

End ClassifierMoreFacts.

Section ClassifierExtras.

Import Classifier ClassifierFacts ClassifierMoreFacts Tally.

Variable os : platform.

(** X9.  What each bucket of paths holds: scripts end in [.zetas];
    directories are existing directories; executables pass
    [_is_executable] and files do not, and neither is an existing
    directory; and only scripts end in [.zetas].  No entry starts with [/]
    or [-].  The suffix is tested first: a token ending in [.zetas] is
    filed as a script whatever the file system says about it. *)
Theorem buckets_hold_what_they_say (args : list pystr) :
  Forall (fun p => endswith p (str ".zetas") = true /\ is_flag p = false)
         (scripts (parse_args os args))
  /\ Forall (fun p => isdir os p = true
                      /\ endswith p (str ".zetas") = false
                      /\ is_flag p = false)
            (directories (parse_args os args))
  /\ Forall (fun p => _is_executable os p = true /\ isdir os p = false
                      /\ endswith p (str ".zetas") = false
                      /\ is_flag p = false)
            (executables (parse_args os args))
  /\ Forall (fun p => _is_executable os p = false /\ isdir os p = false
                      /\ endswith p (str ".zetas") = false
                      /\ is_flag p = false)
            (files (parse_args os args))
  /\ (forall tok rest result,
        is_flag tok = false -> endswith tok (str ".zetas") = true ->
        parse_loop os (tok :: rest) result
        = parse_loop os rest (add_script tok result)).
Proof.
  assert (Hinv :
    Forall (fun p => endswith p (str ".zetas") = true /\ is_flag p = false)
           (scripts (parse_args os args))
    /\ Forall (fun p => isdir os p = true
                        /\ endswith p (str ".zetas") = false
                        /\ is_flag p = false)
              (directories (parse_args os args))
    /\ Forall (fun p => _is_executable os p = true /\ isdir os p = false
                        /\ endswith p (str ".zetas") = false
                        /\ is_flag p = false)
              (executables (parse_args os args))
    /\ Forall (fun p => _is_executable os p = false /\ isdir os p = false
                        /\ endswith p (str ".zetas") = false
                        /\ is_flag p = false)
              (files (parse_args os args))).
  { unfold parse_args. apply parse_loop_invariant;
      try (intros; assumption).
    - intros a r Hflag (Hs & Hd & He & Hf).
      destruct (classify_path_cases os a r)
        as [(E1 & ->)|[(E1 & E2 & ->)|[(E1 & E2 & E3 & ->)
                                      |(E1 & E2 & E3 & ->)]]]; simpl;
        repeat split; auto; apply Forall_app; split; auto.
    - repeat split; constructor. }
  destruct Hinv as (Hs & Hd & He & Hf).
  repeat (split; [assumption|]).
  intros tok rest result Hflag Hz.
  unfold is_flag in Hflag. apply orb_false_iff in Hflag as [Hd' Hs'].
  destruct rest; cbn [parse_loop]; rewrite Hs', Hd';
    now rewrite (classify_script os tok result Hz).
Qed.

(** X10.  The options are a dictionary: no key appears twice and every key
    starts with [-]; and a value, of an option or of a flag-command, never
    starts with [-] or [/]. *)
Theorem options_are_keyed_by_dash_tokens (args : list pystr) :
  NoDup (List.map fst (options (parse_args os args)))
  /\ Forall (fun k => startswith k [dash] = true)
            (List.map fst (options (parse_args os args)))
  /\ Forall (fun kv => match snd kv with
                       | OptStr v => is_flag v = false
                       | OptTrue => True
                       end)
            (options (parse_args os args))
  /\ Forall (fun c => match snd c with
                      | Some v => is_flag v = false
                      | None => True
                      end)
            (commands (parse_args os args)).
Proof.
  assert (Hpath : forall a r,
             options (classify_path os a r) = options r
             /\ commands (classify_path os a r) = commands r).
  { intros a r. unfold classify_path.
    repeat match goal with
           | |- context [if ?b then _ else _] => destruct b
           end; split; reflexivity. }
  assert (Hkeys : forall k v r,
             startswith k [dash] = true ->
             NoDup (List.map fst (options r))
             /\ Forall (fun k => startswith k [dash] = true)
                       (List.map fst (options r)) ->
             NoDup (List.map fst (options (set_option k v r)))
             /\ Forall (fun k => startswith k [dash] = true)
                       (List.map fst (options (set_option k v r)))).
  { intros k v r Hk [Hnd Hall]. simpl.
    destruct (dict_set_keys k v (options r)) as [[_ ->]|[Hout ->]];
      [now split|]. split.
    - apply NoDup_app. repeat split; auto.
      + intros x Hx Hx'. apply list_elem_of_singleton in Hx'. now subst.
      + apply NoDup_singleton.
    - apply Forall_app. split; auto. }
  unfold parse_args. apply parse_loop_invariant.
  - intros cmd r (H1 & H2 & H3 & H4).
    split; [exact H1|split; [exact H2|split; [exact H3|]]].
    simpl. apply Forall_app; split; [exact H4|].
    constructor; [exact I | constructor].
  - intros cmd v r Hv (H1 & H2 & H3 & H4).
    split; [exact H1|split; [exact H2|split; [exact H3|]]].
    simpl. apply Forall_app; split; [exact H4|].
    constructor; [exact Hv | constructor].
  - intros k r Hk (H1 & H2 & H3 & H4).
    destruct (Hkeys k OptTrue r Hk (conj H1 H2)) as [K1 K2].
    split; [exact K1|split; [exact K2|split; [|exact H4]]]. simpl.
    now apply (dict_set_values
                 (fun v => match v with
                           | OptStr v => is_flag v = false
                           | OptTrue => True
                           end)).
  - intros k v r Hk Hv (H1 & H2 & H3 & H4).
    destruct (Hkeys k (OptStr v) r Hk (conj H1 H2)) as [K1 K2].
    split; [exact K1|split; [exact K2|split; [|exact H4]]]. simpl.
    now apply (dict_set_values
                 (fun v => match v with
                           | OptStr v => is_flag v = false
                           | OptTrue => True
                           end)).
  - intros a r _ (H1 & H2 & H3 & H4).
    destruct (Hpath a r) as [-> ->].
    split; [exact H1|split; [exact H2|split; [exact H3|exact H4]]].
  - split; [constructor|split; [constructor|split; constructor]].
Qed.

End ClassifierExtras.

Section ClassifierCount.

Import Classifier ClassifierFacts ClassifierMoreFacts Tally.

Variable os : platform.








End ClassifierCount.

(** ** Running the sub-commands of a line *)

Module BatchFacts.

Import Executor Batch.

Section WithProcessor.

Context {State : Type}.
Variable process : pystr -> State -> outcome * State.

Lemma run_commands_batch (commands : list pystr) :
  (forall cmd st, fst (process cmd st) <> Escapes) ->
  forall results0 st, exists results st',
    batch process commands st results st'
    /\ run_commands process commands results0 st
       = (Some (results0 ++ results), st')
    /\ List.map fst results
       = List.filter (fun c => negb (Text.eqb c [])) commands.
Proof.
  intros Hsafe.
  induction commands as [|cmd commands IH]; intros results0 st.
  - exists [], st. rewrite app_nil_r. repeat split. constructor.
  - destruct cmd as [|c cmd].
    + destruct (IH results0 st) as (rs & st' & Hb & Hr & Hn).
      exists rs, st'. repeat split; auto. now constructor.
    + cbn [run_commands run_command List.filter Text.eqb negb].
      destruct (process (c :: cmd) st) as [[v|e|] st1] eqn:E.
      * destruct (IH (results0 ++ [(c :: cmd, true)]) st1)
          as (rs & st' & Hb & Hr & Hn).
        exists ((c :: cmd, true) :: rs), st'.
        rewrite Hr, <- app_assoc. simpl. rewrite Hn.
        repeat split; auto. eapply batch_returned; eauto.
      * destruct (IH (results0 ++ [(c :: cmd, false)]) st1)
          as (rs & st' & Hb & Hr & Hn).
        exists ((c :: cmd, false) :: rs), st'.
        rewrite Hr, <- app_assoc. simpl. rewrite Hn.
        repeat split; auto. eapply batch_raised; eauto.
      * exfalso. apply (Hsafe (c :: cmd) st). now rewrite E.
Qed.

(** A processor that never raises leaves only [True] in the log. *)
Lemma run_commands_all_true (commands : list pystr) :
  (forall cmd st e st', process cmd st <> (Raises e, st')) ->
  forall results0 st results st',
    Forall (fun r => snd r = true) results0 ->
    run_commands process commands results0 st = (Some results, st') ->
    Forall (fun r => snd r = true) results.
Proof.
  intros Hquiet.
  induction commands as [|cmd commands IH];
    intros results0 st results st' H0 Hrun.
  - simpl in Hrun. now injection Hrun as <- <-.
  - destruct cmd as [|c cmd]; [exact (IH _ _ _ _ H0 Hrun)|].
    cbn [run_commands run_command] in Hrun.
    destruct (process (c :: cmd) st) as [[v|e|] st1] eqn:E.
    + eapply IH; [|exact Hrun].
      apply Forall_app; split; [exact H0|].
      constructor; [reflexivity | constructor].
    + destruct (Hquiet _ _ _ _ E).
    + discriminate Hrun.
Qed.

End WithProcessor.

End BatchFacts.

Section BatchExtras.

Import Executor Batch BatchFacts.

Context {State : Type}.
Variable process : pystr -> State -> outcome * State.

(** X12.  [execute_commands] isolates failures: when processing never ends
    in an exception outside [Exception], every non-empty sub-command of the
    line is processed, in order, each in the state the one before it left,
    whatever the earlier ones did; the log names exactly the non-empty
    sub-commands, with [True] for one that returned and [False] for one
    that raised. *)
Theorem batch_isolates_failures (command_string : pystr) (st : State) :
  (forall cmd st, fst (process cmd st) <> Escapes) ->
  exists results st',
    batch process (Splitter.parse_commands command_string) st results st'
    /\ execute_commands process command_string st = (Some results, st')
    /\ List.map fst results
       = List.filter (fun c => negb (Text.eqb c []))
           (Splitter.parse_commands command_string).
Proof.
  intros Hsafe. unfold execute_commands.
  destruct (run_commands_batch process (Splitter.parse_commands
              command_string) Hsafe [] st) as (rs & st' & Hb & Hr & Hn).
  exists rs, st'. repeat split; auto.
Qed.

End BatchExtras.

(** ** The console *)

Module ConsoleFacts.

Import Classifier Executor Text TextFacts.

Lemma eqb_eq (s t : pystr) : Text.eqb s t = true <-> s = t.
Proof.
  revert s. induction t as [|d t IH]; intros [|c s]; simpl;
    try (split; [discriminate | congruence]); [tauto|].
  rewrite andb_true_iff, N.eqb_eq, IH. split; [intros [-> ->]|intros [= -> ->]];
    auto.
Qed.

Lemma eqb_refl (s : pystr) : Text.eqb s s = true.
Proof. now apply eqb_eq. Qed.

Lemma ascii_lower_idem (c : char) : ascii_lower (ascii_lower c) = ascii_lower c.
Proof.
  unfold ascii_lower.
  destruct ((65 <=? c) && (c <=? 90)) eqn:E; [|now rewrite E].
  apply andb_true_iff in E as [H1 H2].
  apply N.leb_le in H1. apply N.leb_le in H2.
  replace ((65 <=? c + 32) && (c + 32 <=? 90)) with false; [reflexivity|].
  symmetry. apply andb_false_iff. right. apply N.leb_gt. lia.
Qed.

Lemma ascii_lower_small (c : char) : (c <? 128) = true ->
                                     (ascii_lower c <? 128) = true.
Proof.
  intros H. apply N.ltb_lt in H. apply N.ltb_lt. unfold ascii_lower.
  destruct ((65 <=? c) && (c <=? 90)) eqn:E; [|exact H].
  apply andb_true_iff in E as [_ H2]. apply N.leb_le in H2. lia.
Qed.

Lemma ascii_lower_is_slash (c : char) :
  (ascii_lower c =? slash) = (c =? slash).
Proof.
  unfold ascii_lower, slash.
  destruct ((65 <=? c) && (c <=? 90)) eqn:E; [|reflexivity].
  apply andb_true_iff in E as [H1 H2].
  apply N.leb_le in H1. apply N.leb_le in H2.
  transitivity false; [|symmetry]; apply N.eqb_neq; lia.
Qed.

Section WithPlatform.

Variable os : platform.

Lemma lower_ascii (s : pystr) :
  is_ascii s = true -> lower os s = List.map ascii_lower s.
Proof. intros H. unfold lower. unfold is_ascii in H. now rewrite H. Qed.

Lemma lower_ascii_app (s t : pystr) :
  is_ascii s = true -> is_ascii t = true ->
  lower os (s ++ t) = List.map ascii_lower s ++ List.map ascii_lower t.
Proof.
  intros Hs Ht. rewrite lower_ascii, List.map_app; [reflexivity|].
  unfold is_ascii in *. now rewrite forallb_app, Hs, Ht.
Qed.

Lemma lower_idem (s : pystr) :
  is_ascii s = true ->
  is_ascii (lower os s) = true /\ lower os (lower os s) = lower os s.
Proof.
  intros H. rewrite (lower_ascii s H).
  assert (Ha : is_ascii (List.map ascii_lower s) = true).
  { unfold is_ascii in *. induction s as [|c s IH]; [reflexivity|].
    simpl in *. apply andb_true_iff in H as [Hc Hs].
    now rewrite (ascii_lower_small c Hc), (IH Hs). }
  split; [exact Ha|]. rewrite (lower_ascii _ Ha), List.map_map.
  apply List.map_ext. apply ascii_lower_idem.
Qed.

Lemma lower_keeps_slash (s : pystr) :
  is_ascii s = true ->
  startswith (lower os s) [slash] = startswith s [slash].
Proof.
  intros H. rewrite (lower_ascii s H). destruct s as [|c s]; [reflexivity|].
  simpl. now rewrite ascii_lower_is_slash.
Qed.

End WithPlatform.

End ConsoleFacts.

Section RoutingExtras.

Import Classifier Executor Text TextFacts Console ConsoleFacts.

Variable os : platform.

(** X13.  Routing does not look at the case of ASCII letters: a command
    and its lower-cased form reach the same handler. *)
Theorem routing_ignores_case (command : pystr) :
  is_ascii command = true ->
  route os (lower os command) = route os command.
Proof.
  intros H. destruct (lower_idem os command H) as [_ Hl].
  unfold route. now rewrite Hl, (lower_keeps_slash os command H).
Qed.

(** X14.  The tests for [ls] and [dir] ask for no space after the word:
    every ASCII command that starts with [ls] or [dir], in any case, goes
    to the file lister, whatever follows ([lsof], [dirname x]), and
    never to the system shell. *)
Theorem ls_and_dir_capture_every_command_they_prefix (command : pystr) :
  is_ascii command = true ->
  startswith (lower os command) (str "ls")
  || startswith (lower os command) (str "dir") = true ->
  route os command = ListFiles.
Proof.
  intros Ha Hp.
  assert (Hs : startswith command [slash] = false).
  { rewrite <- (lower_keeps_slash os command Ha).
    destruct (lower os command) as [|c l]; [discriminate|].
    apply orb_true_iff in Hp as [Hp|Hp]; simpl in Hp;
      apply andb_true_iff in Hp as [Hc _]; apply N.eqb_eq in Hc;
      now subst. }
  unfold route. rewrite Hs.
  destruct (lower os command) as [|c1 [|c2 l]];
    [discriminate | apply orb_true_iff in Hp as [Hp|Hp]; simpl in Hp;
                    apply andb_true_iff in Hp as [_ Hp];
                    discriminate|].
  apply orb_true_iff in Hp as [Hp|Hp].
  - simpl in Hp. apply andb_true_iff in Hp as [H1 Hp].
    apply andb_true_iff in Hp as [H2 _].
    apply N.eqb_eq in H1. apply N.eqb_eq in H2. subst. reflexivity.
  - destruct l as [|c3 l];
      [simpl in Hp; apply andb_true_iff in Hp as [_ Hp];
       apply andb_true_iff in Hp as [_ Hp]; discriminate|].
    simpl in Hp. apply andb_true_iff in Hp as [H1 Hp].
    apply andb_true_iff in Hp as [H2 Hp].
    apply andb_true_iff in Hp as [H3 _].
    apply N.eqb_eq in H1. apply N.eqb_eq in H2. apply N.eqb_eq in H3.
    subst. reflexivity.
Qed.

End RoutingExtras.

(** ** The alias commands of the console *)

Module AliasCommandFacts.

Import Classifier Executor Text TextFacts Console ConsoleFacts.

Lemma lstrip_app_empty (a b : pystr) :
  lstrip a = [] -> lstrip (a ++ b) = lstrip b.
Proof.
  induction a as [|c a IH]; simpl; [reflexivity|].
  destruct (isspace c); [exact IH | discriminate].
Qed.

Lemma lstrip_app_kept (a b : pystr) :
  lstrip a <> [] -> lstrip (a ++ b) = lstrip a ++ b.
Proof.
  induction a as [|c a IH]; simpl; [congruence|].
  destruct (isspace c); [exact IH | reflexivity].
Qed.

(** Trimming on the right either removes a string whole or keeps its
    first character. *)
Lemma rstrip_cons_cases (c : char) (x : pystr) :
  rstrip (c :: x) = [] \/ rstrip (c :: x) = c :: rstrip x.
Proof.
  unfold rstrip. simpl.
  destruct (lstrip (rev x)) as [|d r] eqn:E.
  - rewrite (lstrip_app_empty _ [c] E). simpl.
    destruct (isspace c); [now left | now right].
  - right. rewrite lstrip_app_kept by (rewrite E; discriminate).
    rewrite E, rev_app_distr. reflexivity.
Qed.

Lemma rstrip_solid_prefix (w x : pystr) :
  forallb (fun c => negb (isspace c)) w = true ->
  rstrip (w ++ x) = w ++ rstrip x.
Proof.
  induction w as [|c w IH]; [reflexivity|]. simpl. intros H.
  apply andb_true_iff in H as [Hc Hw]. apply negb_true_iff in Hc.
  now rewrite (rstrip_solid_head _ _ Hc), (IH Hw).
Qed.

(** A line that begins with a word and a whitespace character has that
    word as its first part. *)
Lemma first_word (w rest : pystr) (sp : char) :
  is_word w = true -> isspace sp = true ->
  exists more, split_max1 (strip (w ++ sp :: rest)) = w :: more.
Proof.
  intros Hw Hsp.
  destruct (is_word_head w Hw) as (c & w' & E & Hc & Hw').
  assert (Hall : forallb (fun c => negb (isspace c)) w = true).
  { rewrite E. simpl. now rewrite Hc. }
  assert (Hstrip : strip (w ++ sp :: rest) = w ++ rstrip (sp :: rest)).
  { unfold strip. rewrite E at 1. cbn [app].
    rewrite (lstrip_solid _ _ Hc).
    change (c :: w' ++ sp :: rest) with ((c :: w') ++ sp :: rest).
    rewrite <- E. now apply rstrip_solid_prefix. }
  rewrite Hstrip. unfold split_max1.
  assert (Hl : lstrip (w ++ rstrip (sp :: rest)) = w ++ rstrip (sp :: rest)).
  { rewrite E. cbn [app]. now apply lstrip_solid. }
  rewrite Hl.
  assert (Hword : word (w ++ rstrip (sp :: rest))
                  = (w, rstrip (sp :: rest))).
  { apply word_run; [exact Hall|].
    destruct (rstrip_cons_cases sp rest) as [->| ->]; [now left|].
    right. eauto. }
  destruct (w ++ rstrip (sp :: rest)) eqn:Ew;
    [rewrite E in Ew; discriminate|].
  cbv beta iota. rewrite Hword.
  destruct (lstrip (rstrip (sp :: rest))); eauto.
Qed.

Lemma split_first_at (sep : char) (a b : pystr) :
  forallb (fun c => negb (c =? sep)) a = true ->
  split_first sep (a ++ sep :: b) = [a; b].
Proof.
  induction a as [|c a IH]; simpl; intros H.
  - now rewrite N.eqb_refl.
  - apply andb_true_iff in H as [Hc Ha]. apply negb_true_iff in Hc.
    now rewrite Hc, (IH Ha).
Qed.

Lemma lstrip_chars_clean (chars : list char) (s : pystr) :
  starts_with_any chars (lstrip_chars chars s) = false.
Proof.
  induction s as [|c s IH]; simpl; [reflexivity|].
  destruct (existsb (N.eqb c) chars) eqn:E; [exact IH|]. simpl. exact E.
Qed.

Lemma lstrip_chars_app_kept (chars : list char) (a b : pystr) :
  lstrip_chars chars a <> [] ->
  lstrip_chars chars (a ++ b) = lstrip_chars chars a ++ b.
Proof.
  induction a as [|c a IH]; simpl; [congruence|].
  destruct (existsb (N.eqb c) chars); [exact IH | reflexivity].
Qed.

Lemma lstrip_chars_app_empty (chars : list char) (a b : pystr) :
  lstrip_chars chars a = [] ->
  lstrip_chars chars (a ++ b) = lstrip_chars chars b.
Proof.
  induction a as [|c a IH]; simpl; [reflexivity|].
  destruct (existsb (N.eqb c) chars); [exact IH | discriminate].
Qed.

(** What [strip(chars)] returns neither begins nor ends with one of the
    characters. *)
Lemma strip_chars_clean (chars : list char) (s : pystr) :
  starts_with_any chars (strip_chars chars s) = false
  /\ ends_with_any chars (strip_chars chars s) = false.
Proof.
  unfold strip_chars, ends_with_any, rstrip_chars.
  split; [|rewrite rev_involutive; apply lstrip_chars_clean].
  pose proof (lstrip_chars_clean chars s) as Hs.
  destruct (lstrip_chars chars s) as [|c y]; [reflexivity|].
  simpl in Hs. simpl.
  destruct (lstrip_chars chars (rev y)) as [|d r] eqn:E.
  - rewrite (lstrip_chars_app_empty _ _ [c] E). simpl. rewrite Hs.
    simpl. exact Hs.
  - rewrite lstrip_chars_app_kept by (rewrite E; discriminate).
    rewrite E, rev_app_distr. simpl. exact Hs.
Qed.

End AliasCommandFacts.

Section AliasCommandExtras.

Import Classifier Executor Text TextFacts Console ConsoleFacts
       AliasCommandFacts.

Variable os : platform.
Context {File World : Type}.
Variable write_file : gmap (list N) (list N) -> File -> File.
Variable input : World -> typed * World.
Variable handler : target -> pystr -> @session File World
                   -> outcome * @session File World.
Variable builtin : pystr -> option pystr -> @session File World
                   -> outcome * @session File World.
Variable print_unknown : pystr -> @session File World -> @session File World.

Local Abbreviation process :=
  (_process_single_command os write_file input handler builtin
                           print_unknown).

(** [_process_single_command] hands no [Exception] on. *)
Lemma process_never_raises command s e s' :
  process command s <> (Raises e, s').
Proof.
  unfold _process_single_command.
  destruct (dispatch _ _ _ _ _ _ _ _) as [[v|r|] s1]; discriminate.
Qed.

(** X15.  In the console the log of [execute_commands] never holds a
    failure: [_process_single_command] catches every [Exception] itself, so
    each sub-command that was run is logged with [True], whatever its
    handler did. *)
Theorem console_batch_logs_only_successes (command_string : pystr)
  (s s' : @session File World) (results : list (pystr * bool)) :
  Batch.execute_commands process command_string s = (Some results, s') ->
  Forall (fun r => snd r = true) results.
Proof.
  intros H. unfold Batch.execute_commands in H.
  eapply (BatchFacts.run_commands_all_true process); [|constructor|exact H].
  intros cmd st e st'. apply process_never_raises.
Qed.

(** X16.  The alias command end to end.  In a table built from the empty
    one, the ASCII line [alias name=text], where [name] is one word
    without [=] that is not reserved and [text] is trimmed and has no
    quote at either end, is not rewritten by expansion, is routed to the
    alias handler, and leaves the console with [name] bound to [text] by
    [add_alias]; nothing else of the console changes. *)
Theorem alias_line_registers (ops : list Alias.operation) (file : File)
  (w : World) (name text : pystr) :
  is_ascii name = true -> is_ascii text = true ->
  is_word name = true ->
  forallb (fun c => negb (c =? 61)) name = true ->
  name ∉ [str "alias"; str "unalias"] ->
  strip text = text -> strip_chars [dquote; squote] text = text ->
  let m := Alias.run write_file ops (Alias.Manager ∅ file) in
  process (str "alias " ++ name ++ 61 :: text) (Session m w)
  = (Returns PyNone,
     Session (snd (Alias.add_alias write_file name text m)) w).
Proof.
  intros Han Hat Hw Heq Hres Hst Hsq m.
  set (line := str "alias " ++ name ++ 61 :: text).
  assert (Hexp : Alias.expand_alias m line = line).
  { unfold Alias.expand_alias.
    destruct (first_word (str "alias") (name ++ 61 :: text) space
                eq_refl eq_refl) as [more Hm].
    change (str "alias" ++ space :: name ++ 61 :: text) with line in Hm.
    rewrite Hm. cbv beta iota.
    unfold m. rewrite (run_keeps_absent write_file (str "alias") ops);
      [reflexivity | apply list_elem_of_here | apply lookup_empty]. }
  assert (Hroute : route os line = AliasSet).
  { assert (Hlow : lower os line
                   = str "alias " ++ List.map ascii_lower (name ++ 61 :: text)).
    { unfold line. rewrite lower_ascii_app; [reflexivity..|].
      unfold is_ascii in *. rewrite forallb_app, Han. simpl. exact Hat. }
    unfold route. rewrite Hlow. reflexivity. }
  assert (Hdrop : strip (drop 6 line) = name ++ 61 :: text).
  { change (drop 6 line) with (name ++ 61 :: text).
    destruct (is_word_head name Hw) as (c & n' & E & Hc & Hn').
    unfold strip. rewrite E at 1. cbn [app]. rewrite (lstrip_solid _ _ Hc).
    change (c :: n' ++ 61 :: text) with ((c :: n') ++ 61 :: text).
    rewrite <- E, (rstrip_app_solid name text 61 eq_refl).
    destruct text as [|t0 text']; [reflexivity|].
    destruct (trimmed_head (t0 :: text') Hst ltac:(discriminate))
      as (_ & _ & _ & _ & ->). reflexivity. }
  unfold _process_single_command. cbn [alias_manager].
  rewrite Hexp, eqb_refl. cbn [negb].
  unfold dispatch. rewrite Hroute.
  unfold _handle_alias_command. rewrite Hdrop.
  rewrite (split_first_at 61 name text Heq).
  rewrite (strip_word name Hw), Hst, Hsq.
  destruct (is_word_head name Hw) as (c & n' & E & _ & _).
  rewrite E at 1. reflexivity.
Qed.

(** X17.  What the alias command can store.  Whatever the line, a binding
    that [_handle_alias_command] adds or changes has a name that is not
    empty, carries no whitespace at its ends and is not reserved, and a
    text that neither begins nor ends with a quote character: quotes at the
    ends of the text are removed, paired or not. *)
Theorem alias_command_stores_clean_bindings (command : pystr)
  (s : @session File World) (name text : pystr) :
  let s' := snd (_handle_alias_command write_file command s) in
  Alias.aliases (alias_manager s') !! name = Some text ->
  (Alias.aliases (alias_manager s) !! name) <> Some text ->
  name <> [] /\ strip name = name
  /\ (name ∉ [str "alias"; str "unalias"])
  /\ starts_with_any [dquote; squote] text = false
  /\ ends_with_any [dquote; squote] text = false.
Proof.
  unfold _handle_alias_command.
  destruct (split_first 61 (strip (drop 6 command)))
    as [|p0 [|p1 [|p2 ps]]]; simpl; try congruence.
  destruct (strip p0) as [|c n] eqn:En; simpl; [congruence|].
  unfold Alias.add_alias.
  destruct (decide (c :: n ∈ [str "alias"; str "unalias"])) as [Hin|Hout];
    simpl; [congruence|].
  intros Hnew Hold.
  destruct (decide (name = c :: n)) as [->|Hne].
  - rewrite lookup_insert_eq in Hnew. injection Hnew as <-.
    destruct (strip_chars_clean [dquote; squote] (strip p1)) as [H1 H2].
    repeat split; auto; try discriminate.
    rewrite <- En. apply strip_idem.
  - rewrite lookup_insert_ne in Hnew by congruence. congruence.
Qed.

(** X18.  [unalias -a] and [unalias --all] ask first.  When the answer is
    an ASCII line, the table is emptied if the answer is [y] or [Y] and is
    left exactly as it was otherwise; when no answer can be read
    ([EOFError]) the table is left as it was and the handler raises. *)
Theorem unalias_all_asks_first (command : pystr) (s : @session File World) :
  strip (drop 8 command) = str "-a" \/ strip (drop 8 command) = str "--all" ->
  (forall confirm w',
     input (world s) = (Line confirm, w') -> is_ascii confirm = true ->
     let s' := snd (_handle_unalias_command os write_file input command s) in
     (confirm = str "y" \/ confirm = str "Y" ->
      Alias.aliases (alias_manager s') = ∅)
     /\ (confirm <> str "y" -> confirm <> str "Y" ->
         alias_manager s' = alias_manager s))
  /\ (forall w',
        input (world s) = (EndOfInput, w') ->
        exists reason,
          _handle_unalias_command os write_file input command s
          = (Raises reason, Session (alias_manager s) w')).
Proof.
  intros Hall.
  assert (Hname : exists c n,
             strip (drop 8 command) = c :: n
             /\ Text.eqb (c :: n) (str "-a")
                || Text.eqb (c :: n) (str "--all") = true).
  { destruct Hall as [E|E]; rewrite E; eexists _, _; split; reflexivity. }
  destruct Hname as (c & n & En & Hflag).
  unfold _handle_unalias_command. rewrite En, Hflag. split.
  - intros confirm w' Hin Hasc. rewrite Hin. cbn [alias_manager].
    rewrite (lower_ascii os confirm Hasc).
    destruct (Text.eqb (List.map ascii_lower confirm) (str "y")) eqn:Ey.
    + split; [reflexivity|]. intros H1 H2. exfalso.
      apply eqb_eq in Ey. destruct confirm as [|k [|k' r]]; try discriminate.
      injection Ey as Ey. unfold ascii_lower in Ey.
      destruct ((65 <=? k) && (k <=? 90)) eqn:Ek.
      * apply H2. assert (k = 89) by lia. now subst.
      * apply H1. now subst.
    + split; [|reflexivity]. intros [-> | ->]; discriminate Ey.
  - intros w' Hin. rewrite Hin. eauto.
Qed.

End AliasCommandExtras.

(** ** Settings *)

Module SettingsFacts.

Import Settings.

Section WithFloats.

Context {F : Type}.
Variable float_lt : F -> Z -> bool.
Variable float_gt : F -> Z -> bool.

Local Abbreviation json := (@json F).
Local Abbreviation page := (str "process_list_page_size").
Local Abbreviation language := (str "language").

Lemma page_is_not_language : page <> language.
Proof. intros H. cbv in H. discriminate H. Qed.

(** The result of a validation that did not raise, key by key. *)
Lemma validate_lookup (data config_data validated : gmap (list N) json) :
  _validate_config float_lt float_gt data config_data = Some validated ->
  validated !! page
  = merged data config_data page ≫= clamp float_lt float_gt
  /\ validated !! language
     = fix_language <$> merged data config_data language
  /\ (forall key, key <> page -> key <> language ->
        validated !! key = merged data config_data key).
Proof.
  unfold _validate_config, merged.
  set (v0 := map_imap _ data).
  assert (Hv0 : forall key,
             v0 !! key
             = (fun d => default d (config_data !! key)) <$> data !! key).
  { intros key. unfold v0. rewrite map_lookup_imap.
    now destruct (data !! key). }
  pose proof page_is_not_language as Hne.
  destruct (v0 !! page) as [p|] eqn:Ep.
  - destruct (clamp float_lt float_gt p) as [p'|] eqn:Ec; [|discriminate].
    rewrite lookup_insert_ne by exact Hne.
    destruct (v0 !! language) as [l|] eqn:El.
    + destruct (language_known l) eqn:Ek; simpl; intros [= <-].
      * rewrite lookup_insert_eq, lookup_insert_ne, <- !Hv0, Ep, El
          by exact Hne.
        simpl. unfold fix_language. rewrite Ek, Ec.
        repeat split. intros key H1 H2.
        rewrite lookup_insert_ne by congruence. apply Hv0.
      * rewrite lookup_insert_ne, lookup_insert_eq, lookup_insert_eq,
          <- !Hv0, Ep, El by congruence.
        simpl. unfold fix_language. rewrite Ek, Ec.
        repeat split. intros key H1 H2.
        rewrite !lookup_insert_ne by congruence. apply Hv0.
    + intros [= <-].
      rewrite lookup_insert_eq, lookup_insert_ne, <- !Hv0, Ep, El
        by exact Hne.
      simpl. rewrite Ec. repeat split. intros key H1 H2.
      rewrite lookup_insert_ne by congruence. apply Hv0.
  - destruct (v0 !! language) as [l|] eqn:El.
    + destruct (language_known l) eqn:Ek; simpl; intros [= <-].
      * rewrite <- !Hv0, Ep, El. simpl. unfold fix_language. rewrite Ek.
        repeat split. intros key H1 H2. apply Hv0.
      * rewrite lookup_insert_ne, lookup_insert_eq, <- !Hv0, Ep, El
          by congruence.
        simpl. unfold fix_language. rewrite Ek.
        repeat split. intros key H1 H2.
        rewrite lookup_insert_ne by congruence. apply Hv0.
    + intros [= <-]. rewrite <- !Hv0, Ep, El.
      repeat split. intros key H1 H2. apply Hv0.
Qed.

Lemma validate_keys (data config_data validated : gmap (list N) json)
  (key : list N) :
  _validate_config float_lt float_gt data config_data = Some validated ->
  is_Some (validated !! key) <-> is_Some (data !! key).
Proof.
  intros H. destruct (validate_lookup _ _ _ H) as (Hp & Hl & Ho).
  destruct (decide (key = page)) as [->|N1].
  - rewrite Hp. unfold merged.
    destruct (data !! page) as [d|] eqn:Ed; simpl.
    + split; [eauto|]. intros _.
      unfold _validate_config in H.
      rewrite map_lookup_imap, Ed in H. simpl in H.
      destruct (clamp float_lt float_gt (default d (config_data !! page)));
        [eauto | discriminate].
    + split; intros [x Hx]; discriminate.
  - destruct (decide (key = language)) as [->|N2].
    + rewrite Hl. unfold merged. destruct (data !! language); simpl;
        split; intros [x Hx]; eauto; discriminate.
    + rewrite (Ho key N1 N2). unfold merged.
      destruct (data !! key); simpl; split; intros [x Hx]; eauto;
        discriminate.
Qed.

Lemma clamp_ok (v v' : json) :
  clamp float_lt float_gt v = Some v' -> page_size_ok float_lt float_gt v'.
Proof.
  destruct v as [|b|z|f|s|]; simpl; try discriminate.
  - intros [= <-]. simpl. lia.
  - intros [= <-]. simpl.
    destruct (z <? 100)%Z eqn:E1.
    + apply Z.ltb_lt in E1. destruct (z >? 10)%Z eqn:E2.
      * apply Z.gtb_lt in E2. lia.
      * lia.
    + reflexivity || (simpl; lia).
  - destruct (float_lt f 100) eqn:E1; [|intros [= <-]; simpl; lia].
    destruct (float_gt f 10) eqn:E2; intros [= <-]; simpl; [auto | lia].
Qed.

Lemma fix_language_known (v : json) :
  language_known (fix_language v) = true.
Proof.
  unfold fix_language. destruct (language_known v) eqn:E; [exact E|].
  reflexivity.
Qed.

End WithFloats.

End SettingsFacts.

Section SettingsExtras.

Import Settings SettingsFacts.

Context {F : Type}.
Variable float_lt : F -> Z -> bool.
Variable float_gt : F -> Z -> bool.

(** X19.  Loading never adds or drops a setting: whatever the file holds,
    [self.data] has the same keys after [load] as before; keys the file
    has and [self.data] lacks are ignored. *)
Theorem load_keeps_the_keys (file : @config_file F)
  (data : gmap (list N) (@json F)) :
  dom (load float_lt float_gt file data) = dom data.
Proof.
  apply set_eq. intros key. rewrite !elem_of_dom.
  destruct file as [| |config_data|]; simpl; try reflexivity.
  destruct (_validate_config float_lt float_gt data config_data)
    as [validated|] eqn:E; [|reflexivity].
  pose proof (validate_keys float_lt float_gt _ _ _ key E) as Hk.
  rewrite lookup_union. destruct (validated !! key) as [x|] eqn:Ex; simpl.
  - split; [intros _; apply Hk; eauto|]. destruct (data !! key); eauto.
  - destruct (data !! key); simpl; [|tauto].
    split; eauto.
Qed.

(** X20.  Loading keeps the page size and the language in range: when
    [self.data] holds a page size between 10 and 100 and a language that is
    [zh] or [en], it still does after [load], whatever the file holds. *)
Theorem load_keeps_settings_in_range (file : @config_file F)
  (data : gmap (list N) (@json F)) (size0 language0 : @json F) :
  data !! str "process_list_page_size" = Some size0 ->
  page_size_ok float_lt float_gt size0 ->
  data !! str "language" = Some language0 ->
  language_known language0 = true ->
  exists size language,
    load float_lt float_gt file data !! str "process_list_page_size"
    = Some size
    /\ page_size_ok float_lt float_gt size
    /\ load float_lt float_gt file data !! str "language" = Some language
    /\ language_known language = true.
Proof.
  intros Hs Hsok Hl Hlok.
  destruct file as [| |config_data|]; simpl; eauto 6.
  destruct (_validate_config float_lt float_gt data config_data)
    as [validated|] eqn:E; [|eauto 6].
  destruct (validate_lookup float_lt float_gt _ _ _ E) as (Hp & Hg & _).
  unfold merged in *. rewrite Hs in Hp. rewrite Hl in Hg. simpl in *.
  destruct (clamp float_lt float_gt
              (default size0 (config_data !! str "process_list_page_size")))
    as [size|] eqn:Ec.
  - exists size, (fix_language
                    (default language0 (config_data !! str "language"))).
    rewrite !lookup_union, Hp, Hg, Hs, Hl.
    split; [reflexivity|]. split; [eapply clamp_ok; eauto|].
    split; [reflexivity | apply fix_language_known].
  - exfalso. unfold _validate_config in E.
    rewrite map_lookup_imap, Hs in E. simpl in E. rewrite Ec in E.
    discriminate E.
Qed.

(** X21.  One page size of the wrong kind spoils the whole file: when the
    file gives [process_list_page_size] as [null], a string, a list or an
    object, validation raises and [load] leaves every setting as it was,
    the file's well-formed ones included. *)
Theorem bad_page_size_discards_the_file
  (data config_data : gmap (list N) (@json F)) (size0 bad : @json F) :
  data !! str "process_list_page_size" = Some size0 ->
  config_data !! str "process_list_page_size" = Some bad ->
  clamp float_lt float_gt bad = None ->
  load float_lt float_gt (Object config_data) data = data.
Proof.
  intros Hs Hc Hbad. simpl. unfold _validate_config.
  rewrite map_lookup_imap, Hs. simpl. rewrite Hc. simpl. now rewrite Hbad.
Qed.

(** X22.  A file that passes validation takes effect: for every key
    [self.data] has, other than the page size and the language, the value
    after [load] is the file's when the file has the key and the old one
    otherwise. *)
Theorem valid_file_overrides_known_keys
  (data config_data validated : gmap (list N) (@json F))
  (key : list N) (old : @json F) :
  _validate_config float_lt float_gt data config_data = Some validated ->
  data !! key = Some old ->
  key <> str "process_list_page_size" -> key <> str "language" ->
  load float_lt float_gt (Object config_data) data !! key
  = Some (default old (config_data !! key)).
Proof.
  intros E Hold N1 N2. simpl. rewrite E.
  destruct (validate_lookup float_lt float_gt _ _ _ E) as (_ & _ & Ho).
  rewrite lookup_union, (Ho key N1 N2). unfold merged. rewrite Hold.
  reflexivity.
Qed.

End SettingsExtras.

(** ** Colours *)

Module PaletteFacts.

Import Executor Palette.

(** A property of every ASCII character, from its check on each of the
    128 codes. *)
Lemma ascii_cases (P : N -> bool) :
  forallb P (List.map N.of_nat (seq 0 128)) = true ->
  forall c, c < 128 -> P c = true.
Proof.
  intros Hall c Hc. rewrite forallb_forall in Hall. apply Hall.
  apply in_map_iff. exists (N.to_nat c). split; [apply N2Nat.id|].
  apply in_seq. lia.
Qed.

Lemma color_eqb_eq (a b : option color) : color_eqb a b = true -> a = b.
Proof.
  destruct a as [x|], b as [y|]; try discriminate; [|reflexivity].
  destruct x, y; try discriminate; reflexivity.
Qed.

(** Upper-casing and the dictionary together read a hexadecimal digit. *)
Lemma color_of_digit (unicode_upper : char -> pystr) (c : char) :
  c < 128 ->
  color_map (upper1 unicode_upper c)
  = hex_digit c ≫= (fun i => numbered !! i).
Proof.
  intros Hc. apply color_eqb_eq.
  assert (Hu : upper1 unicode_upper c
               = [if (97 <=? c) && (c <=? 122) then c - 32 else c]).
  { unfold upper1. apply N.ltb_lt in Hc. now rewrite Hc. }
  rewrite Hu.
  apply (ascii_cases
           (fun c => color_eqb
                       (color_map
                          [if (97 <=? c) && (c <=? 122) then c - 32 else c])
                       (hex_digit c ≫= (fun i => numbered !! i))));
    [vm_compute; reflexivity | exact Hc].
Qed.

End PaletteFacts.

Section PaletteExtras.

Import Executor Text Palette PaletteFacts.

Variable unicode_upper : char -> pystr.

(** X23.  [set_color] on an ASCII code: two hexadecimal digits (in either
    case) select the background and the foreground by their numbers, write
    the two colour codes, print the message that names the two colours and
    give [True]; two characters that are not both hexadecimal digits give
    [None], not [False], and nothing is written; any other length gives
    [False] and only the usage message is printed.  In both failing cases
    the colours are left as they were. *)
Theorem set_color_reads_two_hex_digits (color_code : pystr)
  (self : manager) :
  is_ascii color_code = true ->
  match color_code with
  | [b; f] =>
      match hex_digit b ≫= (fun i => numbered !! i),
            hex_digit f ≫= (fun j => numbered !! j) with
      | Some bg, Some fg =>
          set_color unicode_upper color_code self
          = (PyTrue, Manager fg bg,
             [back_code bg; Fore fg] ++ success_message bg fg)
      | _, _ => set_color unicode_upper color_code self = (PyNone, self, [])
      end
  | _ =>
      set_color unicode_upper color_code self = (PyFalse, self, usage_message)
  end.
Proof.
  intros Ha. destruct color_code as [|b [|f [|x r]]]; try reflexivity.
  unfold is_ascii in Ha. simpl in Ha.
  apply andb_true_iff in Ha as [Hb Ha].
  apply andb_true_iff in Ha as [Hf _].
  apply N.ltb_lt in Hb. apply N.ltb_lt in Hf.
  unfold set_color.
  rewrite (color_of_digit unicode_upper b Hb),
          (color_of_digit unicode_upper f Hf).
  destruct (hex_digit b ≫= _) as [bg|]; [|reflexivity].
  destruct (hex_digit f ≫= _) as [fg|]; reflexivity.
Qed.

(** X24.  A light background is kept but not shown: when the first digit
    is 8 or more, [set_color] records the light colour as the background
    and writes the code of a black background to the terminal, because
    [Colors.COLOR_MAP] has no [bg_] entry for the light colours; the
    message printed after it names the light colour. *)
Theorem light_background_is_written_as_black (b f : char) (i j : nat)
  (self : manager) :
  b < 128 -> f < 128 ->
  hex_digit b = Some i -> hex_digit f = Some j -> (8 <= i)%nat ->
  exists bg fg,
    numbered !! i = Some bg /\ numbered !! j = Some fg
    /\ set_color unicode_upper [b; f] self
       = (PyTrue, Manager fg bg,
          [Back black; Fore fg] ++ success_message bg fg)
    /\ bg <> black.
Proof.
  intros Hb Hf Hi Hj Hlight.
  assert (Hrange : forall c k, hex_digit c = Some k -> (k < 16)%nat).
  { intros c k. unfold hex_digit.
    destruct ((48 <=? c) && (c <=? 57)) eqn:E1.
    { apply andb_true_iff in E1 as [H1 H2].
      apply N.leb_le in H1. apply N.leb_le in H2. intros [= <-]. lia. }
    destruct ((65 <=? c) && (c <=? 70)) eqn:E2.
    { apply andb_true_iff in E2 as [H1 H2].
      apply N.leb_le in H1. apply N.leb_le in H2. intros [= <-]. lia. }
    destruct ((97 <=? c) && (c <=? 102)) eqn:E3; [|discriminate].
    apply andb_true_iff in E3 as [H1 H2].
    apply N.leb_le in H1. apply N.leb_le in H2. intros [= <-]. lia. }
  pose proof (Hrange b i Hi) as Hi16. pose proof (Hrange f j Hj) as Hj16.
  destruct (lookup_lt_is_Some_2 numbered i) as [bg Hbg]; [exact Hi16|].
  destruct (lookup_lt_is_Some_2 numbered j) as [fg Hfg]; [exact Hj16|].
  exists bg, fg. split; [exact Hbg|]. split; [exact Hfg|].
  unfold set_color.
  rewrite (color_of_digit unicode_upper b Hb),
          (color_of_digit unicode_upper f Hf), Hi, Hj.
  simpl. rewrite Hbg, Hfg.
  do 8 (destruct i as [|i]; [lia|]).
  do 8 (destruct i as [|i]; [injection Hbg as <-; split;
                             [reflexivity | discriminate]|]).
  simpl in Hi16. lia.
Qed.

End PaletteExtras.

(** ** The prompt and the history of the interactive loop *)

Section LoopExtras.

Import Console.

Lemma remember_drops (x : pystr) (h : list pystr) :
  (length h <= 100)%nat ->
  remember x h = drop (length (h ++ [x]) - 100) (h ++ [x]).
Proof.
  intros H. unfold remember. rewrite length_app. simpl.
  destruct (100 <? length h + 1)%nat eqn:E.
  - apply Nat.ltb_lt in E. now replace (length h + 1 - 100)%nat with 1%nat
      by lia.
  - apply Nat.ltb_ge in E. now replace (length h + 1 - 100)%nat with 0%nat
      by lia.
Qed.

(** X25.  The loop keeps the last hundred commands: starting from at most
    a hundred, after any number of commands the history holds at most a
    hundred entries, and they are the most recent ones, oldest first.  The
    path in the prompt is the working directory when that has at most 40
    characters, and else three dots and its last 37. *)
Theorem history_and_prompt_are_bounded :
  (forall (typed : list pystr) (history : list pystr),
     (length history <= 100)%nat ->
     let kept := fold_left (fun h x => remember x h) typed history in
     (length kept <= 100)%nat
     /\ kept = drop (length (history ++ typed) - 100) (history ++ typed))
  /\ (forall cwd,
        (length (display_cwd cwd) <= 40)%nat
        /\ ((length cwd <= 40)%nat -> display_cwd cwd = cwd)
        /\ ((40 < length cwd)%nat ->
            display_cwd cwd = str "..." ++ drop (length cwd - 37) cwd
            /\ length (display_cwd cwd) = 40%nat)).
Proof.
  split.
  - intros typed. induction typed as [|x typed IH]; intros history Hlen.
    + simpl. rewrite app_nil_r. split; [exact Hlen|].
      now replace (length history - 100)%nat with 0%nat by lia.
    + cbn [fold_left].
      assert (Hstep : (length (remember x history) <= 100)%nat).
      { rewrite (remember_drops x history Hlen), length_drop, length_app.
        simpl. lia. }
      destruct (IH (remember x history) Hstep) as [Hk Heq].
      split; [exact Hk|]. rewrite Heq.
      rewrite (remember_drops x history Hlen).
      set (k := (length (history ++ [x]) - 100)%nat).
      assert (Hk' : (k <= length (history ++ [x]))%nat) by (unfold k; lia).
      rewrite <- (drop_app_le (history ++ [x]) typed k Hk').
      rewrite <- app_assoc. cbn [app].
      rewrite drop_drop. f_equal.
      rewrite length_drop. unfold k. rewrite !length_app. simpl. lia.
  - intros cwd. unfold display_cwd.
    destruct (40 <? length cwd)%nat eqn:E.
    + apply Nat.ltb_lt in E.
      assert (Hl : length (str "..." ++ drop (length cwd - 37) cwd)
                   = 40%nat).
      { rewrite length_app, length_drop. simpl. lia. }
      repeat split; auto; try lia.
    + apply Nat.ltb_ge in E. repeat split; auto; lia.
Qed.

End LoopExtras.

(** ** The further properties on concrete inputs *)

Section OnMoreSamples.

Import Classifier Executor Text Console Sample Sample2.

Lemma ll_is_free : str "ll" ∉ [str "alias"; str "unalias"].
Proof.
  intros H. apply list_elem_of_In in H. simpl in H.
  destruct H as [H|[H|[]]]; discriminate H.
Qed.

Lemma added_alias_expands_witness :
  is_word (str "ll") = true
  /\ str "/tmp" <> []
  /\ strip (str "/tmp") = str "/tmp"
  /\ Alias.expand_alias
       (snd (Alias.add_alias write_unit (str "ll") (str "ls -la")
               (Alias.Manager ∅ tt)))
       (str "ll /tmp")
     = str "ls -la /tmp".
Proof.
  split; [reflexivity|]. split; [discriminate|]. split; [reflexivity|].
  exact (proj2 (proj2 (added_alias_expands write_unit (str "ll")
                         (str "ls -la") (str "/tmp") (Alias.Manager ∅ tt)
                         eq_refl ll_is_free ltac:(discriminate) eq_refl))).
Defined.


Lemma removed_alias_is_gone_witness :
  Alias.aliases two_aliases !! str "ls" = Some (str "dir")
  /\ fst (Alias.remove_alias write_unit (str "ls") two_aliases) = true
  /\ Alias.expand_alias
       (snd (Alias.remove_alias write_unit (str "ls") two_aliases))
       (str "ls -la")
     = str "ls -la".
Proof.
  assert (H : Alias.aliases two_aliases !! str "ls" = Some (str "dir"))
    by (vm_compute; reflexivity).
  split; [exact H|]. split.
  - exact (proj1 (proj2 (removed_alias_is_gone write_unit (str "ls")
                           two_aliases)) (str "dir") H).
  - exact (proj2 (proj2 (proj2 (proj2
             (removed_alias_is_gone write_unit (str "ls") two_aliases))))
             (str "ls -la") [str "-la"] eq_refl).
Defined.

Lemma add_then_remove_restores_witness :
  Alias.aliases two_aliases !! str "gs" = None
  /\ Alias.aliases
       (snd (Alias.remove_alias write_unit (str "gs")
               (snd (Alias.add_alias write_unit (str "gs")
                       (str "git status") two_aliases))))
     = Alias.aliases two_aliases.
Proof.
  assert (H : Alias.aliases two_aliases !! str "gs" = None)
    by (vm_compute; reflexivity).
  assert (Hfree : str "gs" ∉ [str "alias"; str "unalias"]).
  { intros Hin. apply list_elem_of_In in Hin. simpl in Hin.
    destruct Hin as [Hin|[Hin|[]]]; discriminate Hin. }
  split; [exact H|].
  exact (add_then_remove_restores write_unit (str "gs") (str "git status")
           two_aliases Hfree H).
Defined.

Lemma alias_commands_are_never_rewritten_witness :
  split_max1 (strip (str "unalias ll")) = [str "unalias"; str "ll"]
  /\ Alias.expand_alias two_aliases (str "unalias ll") = str "unalias ll".
Proof.
  split; [reflexivity|].
  exact (alias_commands_are_never_rewritten write_unit
           [Alias.Add (str "ll") (str "ls -la");
            Alias.Add (str "ls") (str "dir")]
           tt (str "unalias ll") (str "unalias") [str "ll"] eq_refl
           (list_elem_of_further _ _ _ (list_elem_of_here _ _))).
Defined.

Lemma buckets_hold_what_they_say_witness :
  is_flag (str "run.zetas") = false
  /\ endswith (str "run.zetas") (str ".zetas") = true
  /\ parse_loop nothing_exists [str "run.zetas"] empty_result
     = add_script (str "run.zetas") empty_result.
Proof.
  split; [reflexivity|]. split; [reflexivity|].
  exact (proj2 (proj2 (proj2 (proj2
           (buckets_hold_what_they_say nothing_exists []))))
           (str "run.zetas") [] empty_result eq_refl eq_refl).
Defined.


Lemma counting_never_escapes : forall cmd n, fst (counting cmd n) <> Escapes.
Proof.
  intros cmd n. unfold counting.
  destruct (Text.eqb cmd (str "fail")); discriminate.
Qed.

Lemma batch_isolates_failures_witness :
  (forall cmd n, fst (counting cmd n) <> Escapes)
  /\ exists results n',
       Batch.execute_commands counting (str "fail + + ls") 0%nat
       = (Some results, n')
       /\ List.map fst results = [str "fail"; str "ls"].
Proof.
  split; [exact counting_never_escapes|].
  destruct (batch_isolates_failures counting (str "fail + + ls") 0%nat
              counting_never_escapes) as (results & n' & _ & Hrun & Hnames).
  exists results, n'. split; [exact Hrun | exact Hnames].
Defined.

Lemma routing_ignores_case_witness :
  is_ascii (str "LS -la") = true
  /\ route nothing_exists (lower nothing_exists (str "LS -la"))
     = route nothing_exists (str "LS -la").
Proof.
  split; [reflexivity|].
  exact (routing_ignores_case nothing_exists (str "LS -la") eq_refl).
Defined.

Lemma ls_and_dir_capture_every_command_they_prefix_witness :
  is_ascii (str "lsof -i") = true
  /\ route nothing_exists (str "lsof -i") = ListFiles.
Proof.
  split; [reflexivity|].
  exact (ls_and_dir_capture_every_command_they_prefix nothing_exists
           (str "lsof -i") eq_refl eq_refl).
Defined.

Lemma console_batch_logs_only_successes_witness :
  Batch.execute_commands
    (_process_single_command nothing_exists write_unit answers_no raising
       no_builtin silent)
    (str "pwd + date") fresh
  = (Some [(str "pwd", true); (str "date", true)], fresh)
  /\ Forall (fun r => snd r = true) [(str "pwd", true); (str "date", true)].
Proof.
  assert (H : Batch.execute_commands
                (_process_single_command nothing_exists write_unit
                   answers_no raising no_builtin silent)
                (str "pwd + date") fresh
              = (Some [(str "pwd", true); (str "date", true)], fresh))
    by (vm_compute; reflexivity).
  split; [exact H|].
  exact (console_batch_logs_only_successes nothing_exists write_unit
           answers_no raising no_builtin silent (str "pwd + date")
           fresh fresh _ H).
Defined.

Lemma alias_line_registers_witness :
  is_word (str "ll") = true
  /\ strip (str "ls -la") = str "ls -la"
  /\ _process_single_command nothing_exists write_unit answers_no raising
       no_builtin silent (str "alias ll=ls -la") fresh
     = (Returns PyNone,
        Session (snd (Alias.add_alias write_unit (str "ll") (str "ls -la")
                        (Alias.Manager ∅ tt))) tt).
Proof.
  split; [reflexivity|]. split; [reflexivity|].
  exact (alias_line_registers nothing_exists write_unit answers_no raising
           no_builtin silent [] tt tt (str "ll") (str "ls -la")
           eq_refl eq_refl eq_refl eq_refl ll_is_free eq_refl eq_refl).
Defined.

Lemma alias_command_stores_clean_bindings_witness :
  let line := str "alias e=echo " ++ [dquote] ++ str "hi" ++ [dquote] in
  let s' := snd (_handle_alias_command write_unit line fresh) in
  Alias.aliases (alias_manager s') !! str "e"
  = Some (str "echo " ++ [dquote] ++ str "hi")
  /\ ends_with_any [dquote; squote] (str "echo " ++ [dquote] ++ str "hi")
     = false.
Proof.
  intros line s'.
  assert (H : Alias.aliases (alias_manager s') !! str "e"
              = Some (str "echo " ++ [dquote] ++ str "hi"))
    by (vm_compute; reflexivity).
  split; [exact H|].
  refine (proj2 (proj2 (proj2 (proj2
            (alias_command_stores_clean_bindings write_unit line fresh
               (str "e") (str "echo " ++ [dquote] ++ str "hi") H _))))).
  vm_compute. discriminate.
Defined.

Lemma unalias_all_asks_first_witness :
  strip (drop 8 (str "unalias -a")) = str "-a"
  /\ answers_no tt = (Line (str "n"), tt)
  /\ alias_manager
       (snd (_handle_unalias_command nothing_exists write_unit answers_no
               (str "unalias -a") (Session two_aliases tt)))
     = two_aliases.
Proof.
  split; [reflexivity|]. split; [reflexivity|].
  refine (proj2 (proj1 (unalias_all_asks_first nothing_exists write_unit
                          answers_no (str "unalias -a")
                          (Session two_aliases tt) (or_introl eq_refl))
                   (str "n") tt eq_refl eq_refl) _ _); discriminate.
Defined.

Lemma load_keeps_settings_in_range_witness :
  defaults !! str "process_list_page_size" = Some (Settings.JInt 20)
  /\ exists size language,
       Settings.load never never (Settings.Object eager) defaults
         !! str "process_list_page_size" = Some size
       /\ Settings.page_size_ok never never size
       /\ Settings.load never never (Settings.Object eager) defaults
            !! str "language" = Some language
       /\ Settings.language_known language = true.
Proof.
  assert (H1 : defaults !! str "process_list_page_size"
               = Some (Settings.JInt 20)) by (vm_compute; reflexivity).
  assert (H2 : defaults !! str "language"
               = Some (Settings.JStr (str "zh")))
    by (vm_compute; reflexivity).
  split; [exact H1|].
  exact (load_keeps_settings_in_range never never (Settings.Object eager)
           defaults _ _ H1 ltac:(simpl; lia) H2 eq_refl).
Defined.

Lemma bad_page_size_discards_the_file_witness :
  sloppy !! str "process_list_page_size"
  = Some (Settings.JStr (str "many"))
  /\ Settings.load never never (Settings.Object sloppy) defaults = defaults.
Proof.
  assert (H1 : defaults !! str "process_list_page_size"
               = Some (Settings.JInt 20)) by (vm_compute; reflexivity).
  assert (H2 : sloppy !! str "process_list_page_size"
               = Some (Settings.JStr (str "many")))
    by (vm_compute; reflexivity).
  split; [exact H2|].
  exact (bad_page_size_discards_the_file never never defaults sloppy _ _
           H1 H2 eq_refl).
Defined.

Lemma valid_file_overrides_known_keys_witness :
  defaults !! str "theme" = Some (Settings.JStr (str "powershell"))
  /\ Settings.load never never (Settings.Object eager) defaults
       !! str "theme"
     = Some (default (Settings.JStr (str "powershell"))
               (eager !! str "theme")).
Proof.
  assert (H : defaults !! str "theme"
              = Some (Settings.JStr (str "powershell")))
    by (vm_compute; reflexivity).
  split; [exact H|].
  destruct (Settings._validate_config never never defaults eager)
    as [validated|] eqn:E; [|vm_compute in E; discriminate E].
  refine (valid_file_overrides_known_keys never never defaults eager
            validated (str "theme") _ E H _ _);
    intros Hk; vm_compute in Hk; discriminate Hk.
Defined.

Lemma set_color_reads_two_hex_digits_witness :
  is_ascii (str "0a") = true
  /\ is_ascii (str "7") = true
  /\ Palette.set_color (fun c => [c]) (str "0a")
       (Palette.Manager Palette.white Palette.black)
     = (PyTrue, Palette.Manager Palette.lightgreen Palette.black,
        [Palette.Back Palette.black; Palette.Fore Palette.lightgreen]
        ++ Palette.success_message Palette.black Palette.lightgreen)
  /\ Palette.set_color (fun c => [c]) (str "7")
       (Palette.Manager Palette.white Palette.black)
     = (PyFalse, Palette.Manager Palette.white Palette.black,
        Palette.usage_message).
Proof.
  split; [reflexivity|]. split; [reflexivity|]. split.
  - exact (set_color_reads_two_hex_digits (fun c => [c]) (str "0a")
             (Palette.Manager Palette.white Palette.black) eq_refl).
  - exact (set_color_reads_two_hex_digits (fun c => [c]) (str "7")
             (Palette.Manager Palette.white Palette.black) eq_refl).
Defined.

Lemma light_background_is_written_as_black_witness :
  Palette.hex_digit 56 = Some 8%nat
  /\ exists bg fg,
       Palette.numbered !! 8%nat = Some bg
       /\ Palette.numbered !! 10%nat = Some fg
       /\ Palette.set_color (fun c => [c]) [56; 97]
            (Palette.Manager Palette.white Palette.black)
          = (PyTrue, Palette.Manager fg bg,
             [Palette.Back Palette.black; Palette.Fore fg]
             ++ Palette.success_message bg fg)
       /\ bg <> Palette.black.
Proof.
  split; [reflexivity|].
  exact (light_background_is_written_as_black (fun c => [c]) 56 97 8 10
           (Palette.Manager Palette.white Palette.black)
           eq_refl eq_refl eq_refl eq_refl ltac:(lia)).
Defined.

Lemma history_and_prompt_are_bounded_witness :
  (length [str "pwd"] <= 100)%nat
  /\ fold_left (fun h x => remember x h) [str "ls"; str "date"] [str "pwd"]
     = [str "pwd"; str "ls"; str "date"].
Proof.
  split; [simpl; lia|].
  exact (proj2 (proj1 history_and_prompt_are_bounded
                  [str "ls"; str "date"] [str "pwd"] ltac:(simpl; lia))).
Defined.

End OnMoreSamples.
